(** * mergelogga: changelog generation from the merge requests of a Git history

    A shallow embedding of [bin/mergelogga.js].  JavaScript strings are
    modelled as [string]; one [ascii] stands for one code unit below 256.
    The module-level variables of the script that a function reads become
    arguments of its model, the ones it assigns become a record it returns.
    The child processes ([git log], [git show]) and the changelog file are
    inputs of the model: the chunks a process writes to its standard output,
    the code of its [close] event, the content of the file.  [console.log]
    progress output is not modelled; [console.error] and [process.exit] are. *)

From Stdlib Require Import String Ascii List Bool Arith Lia.
From Stdlib Require Import Numbers.DecimalString.
Import ListNotations.

Open Scope string_scope.
Open Scope list_scope.

Infix "+++" := String.append (right associativity, at level 60).

(** ** JavaScript values *)

Module Js.

(** Truthiness of a value that is [undefined]/[false] ([None]) or a string. *)
Definition truthy (v : option string) : bool :=
  match v with
  | Some (String _ _) => true
  | _ => false
  end.

(** Truthiness of the [code] of a [close] event: [null] ([None]) when the
    child was terminated by a signal, a number otherwise. *)
Definition truthyCode (code : option nat) : bool :=
  match code with
  | Some (S _) => true
  | _ => false
  end.

(** [String(code)] for a number. *)
Definition showNat (n : nat) : string := NilEmpty.string_of_uint (Nat.to_uint n).

Definition showCode (code : option nat) : string :=
  match code with
  | Some n => showNat n
  | None => "null"
  end.

(** [\s] on code units below 256. *)
Definition isSpace (c : ascii) : bool :=
  let n := nat_of_ascii c in
  (((9 <=? n) && (n <=? 13)) || (n =? 32) || (n =? 160))%nat.

(** [[0-9]] *)
Definition isDigit (c : ascii) : bool :=
  let n := nat_of_ascii c in ((48 <=? n) && (n <=? 57))%nat.

(** The line terminators [.] does not match. *)
Definition isLineTerminator (c : ascii) : bool :=
  let n := nat_of_ascii c in ((n =? 10) || (n =? 13))%nat.

(** Canonicalisation of the [i] flag: on code units below 256 only the
    letters a-z are mapped onto an ASCII letter. *)
Definition canon (c : ascii) : ascii :=
  let n := nat_of_ascii c in
  if ((97 <=? n) && (n <=? 122))%nat then ascii_of_nat (n - 32) else c.

(** A literal of a regular expression with the [i] flag, matched at the
    start of [s]; the rest of [s] when it matches. *)
Fixpoint litCI (p s : string) : option string :=
  match p with
  | "" => Some s
  | String a p' =>
      match s with
      | String c s' => if Ascii.eqb (canon a) (canon c) then litCI p' s' else None
      | "" => None
      end
  end.

(** [a === b] for values that are [undefined] or strings. *)
Definition strictEq (a b : option string) : bool :=
  match a, b with
  | Some x, Some y => String.eqb x y
  | None, None => true
  | _, _ => false
  end.

(** Whether a match was found. *)
Definition matched (m : option string) : bool :=
  match m with
  | Some _ => true
  | None => false
  end.

(** [\s*], greedy: what is left after the white space. *)
Fixpoint skipSpaces (s : string) : string :=
  match s with
  | String c s' => if isSpace c then skipSpaces s' else s
  | "" => ""
  end.

Fixpoint countSpaces (s : string) : nat :=
  match s with
  | String c s' => if isSpace c then S (countSpaces s') else 0
  | "" => 0
  end.

(** [[0-9]*], greedy. *)
Fixpoint skipDigits (s : string) : string :=
  match s with
  | String c s' => if isDigit c then skipDigits s' else s
  | "" => ""
  end.

(** [[0-9]+] *)
Definition digits1 (s : string) : option string :=
  match s with
  | String c s' => if isDigit c then Some (skipDigits s') else None
  | "" => None
  end.

(** The group of [.] repeated, greedy: up to the first line terminator. *)
Fixpoint dotStar (s : string) : string :=
  match s with
  | String c s' => if isLineTerminator c then "" else String c (dotStar s')
  | "" => ""
  end.

(** [_.trim]: white space removed at both ends. *)
Fixpoint trimEnd (s : string) : string :=
  match s with
  | "" => ""
  | String c s' =>
      match trimEnd s' with
      | "" => if isSpace c then "" else String c ""
      | t => String c t
      end
  end.

Definition trim (s : string) : string := trimEnd (skipSpaces s).

(** [String.prototype.split] for a separator that never matches the empty
    string.  [sep s] is the length of the separator matched at the start of
    [s], if there is one.  At each position the separator is tried; where it
    matches, the token ends and the separator is skipped; elsewhere the code
    unit joins the token.  [skip] counts the code units of a separator still
    to pass. *)
Fixpoint splitGo (sep : string -> option nat) (s : string) (skip : nat) : list string :=
  match s with
  | "" => [""]
  | String c s' =>
      match skip with
      | S k => splitGo sep s' k
      | 0 =>
          match sep s with
          | Some (S n) => "" :: splitGo sep s' n
          | _ =>
              match splitGo sep s' 0 with
              | t :: ts => String c t :: ts
              | [] => [String c ""]
              end
          end
      end
  end.

Definition split (sep : string -> option nat) (s : string) : list string :=
  splitGo sep s 0.

(** Separator [/(?:\r?\n)/g] *)
Definition sepNewline (s : string) : option nat :=
  match s with
  | String c s' =>
      if Ascii.eqb c "010" then Some 1
      else if Ascii.eqb c "013" then
        match s' with
        | String c' _ => if Ascii.eqb c' "010" then Some 2 else None
        | "" => None
        end
      else None
  | "" => None
  end.

(** A separator of one code unit: ['#'], [' ']. *)
Definition sepChar (a : ascii) (s : string) : option nat :=
  match s with
  | String c _ => if Ascii.eqb c a then Some 1 else None
  | "" => None
  end.

(** Separator [/\s*,\s*/] *)
Definition sepComma (s : string) : option nat :=
  match skipSpaces s with
  | String c r => if Ascii.eqb c "," then Some (countSpaces s + 1 + countSpaces r) else None
  | "" => None
  end.

Definition splitLines : string -> list string := split sepNewline.

(** [Array.prototype.join] *)
Definition join (sep : string) (l : list string) : string := String.concat sep l.

(** [_.forEach], which stops when the iteratee returns [false]: the
    iteratee returns the new state and whether to go on. *)
Fixpoint forEach {A S : Type} (f : S -> A -> S * bool) (l : list A) (s : S) : S :=
  match l with
  | [] => s
  | x :: l' =>
      let (s', continue) := f s x in
      if continue then forEach f l' s' else s'
  end.

End Js.

(** ['\n'] *)
Definition LF : string := String "010" "".

(** ** Version patterns *)

(** [\.[0-9]+] *)
Definition dotDigits1 (s : string) : option string :=
  match s with
  | String c s' => if Ascii.eqb c "." then Js.digits1 s' else None
  | "" => None
  end.

(** [$] *)
Definition atEnd (s : string) : bool :=
  match s with
  | "" => true
  | String _ _ => false
  end.

(** [versionRegExp = /^[0-9]+\.[0-9]+(\.[0-9]+(\.[0-9]+)?)?$/]: each optional
    group is taken when it matches; a group left out, or matched shorter,
    meets a digit or a dot where the end is asked for. *)
Definition versionRegExp (s : string) : bool :=
  match Js.digits1 s with
  | Some s1 =>
      match dotDigits1 s1 with
      | Some s2 =>
          match dotDigits1 s2 with
          | Some s3 =>
              match dotDigits1 s3 with
              | Some s4 => atEnd s4
              | None => atEnd s3
              end
          | None => atEnd s2
          end
      | None => false
      end
  | None => false
  end.

(** The pattern of [getTagVersion], with the [i] flag: [tag:], then [[\s]+],
    then [v?], then the group capturing [.] repeated.  Here it is tried at
    the start of [s]; the result is the capture. *)
Definition tagAt (s : string) : option string :=
  match Js.litCI "tag:" s with
  | Some (String c r) =>
      if Js.isSpace c then
        let r1 := Js.skipSpaces r in
        let r2 := match r1 with
                  | String v r' => if Ascii.eqb (Js.canon v) "V" then r' else r1
                  | "" => r1
                  end in
        Some (Js.dotStar r2)
      else None
  | _ => None
  end.

(** [version.match] of that pattern: the capture [matches[1]] of the
    leftmost match, [None] when there is no match. *)
Fixpoint tagMatch (s : string) : option string :=
  match s with
  | "" => None
  | String _ s' =>
      match tagAt s with
      | Some m => Some m
      | None => tagMatch s'
      end
  end.

(** [refNames ? refNames.split(/\s*,\s*/) : []] *)
Definition decorations (refNames : option string) : list string :=
  match refNames with
  | Some r => if Js.truthy refNames then Js.split Js.sepComma r else []
  | None => []
  end.

(** The body of the reducer of [getTagVersion]. *)
Definition tagStep (tag : option string) (version : string) : option string :=
  match tagMatch version with
  | Some m1 => if negb (Js.truthy tag) && versionRegExp m1 then Some m1 else tag
  | None => tag
  end.

Definition getTagVersion (refNames : option string) : option string :=
  fold_left tagStep (decorations refNames) None.

(** ** Results of the asynchronous steps *)

(** The arguments a Node callback receives: an error, or [null] and a value.
    Every error of the script is truthy (a non-empty message or an [Error]
    object), so an [Err] always takes the error path. *)
Inductive Result (A : Type) : Type :=
  | Ok (a : A)
  | Err (error : string).

Arguments Ok {A} a.
Arguments Err {A} error.

Definition bind {A B : Type} (r : Result A) (k : A -> Result B) : Result B :=
  match r with
  | Ok a => k a
  | Err e => Err e
  end.

Notation "x <- r ;; k" := (bind r (fun x => k))
  (at level 61, r at next level, right associativity).

(** [async.parallelLimit(tasks, 4, callback)].  A task is given by the time
    at which it calls back and by what it calls back with.  The results keep
    the positions of their tasks.  The first task in time that fails ends the
    whole with its error, and what the other tasks call back with later is
    dropped.  Up to that failure no task has failed, so the tasks are started
    as in a run where none fails: the time of a task is its time in such a
    run.  Of two failing tasks given the same time, the one that comes first
    in the list is taken as the earlier. *)
Fixpoint firstError {A : Type} (tasks : list (nat * Result A)) : option (nat * string) :=
  match tasks with
  | [] => None
  | (_, Ok _) :: ts => firstError ts
  | (time, Err error) :: ts =>
      match firstError ts with
      | Some (time', error') =>
          if Nat.ltb time' time then Some (time', error') else Some (time, error)
      | None => Some (time, error)
      end
  end.

(** The values of the tasks that succeed, at their positions. *)
Fixpoint values {A : Type} (tasks : list (nat * Result A)) : list A :=
  match tasks with
  | [] => []
  | (_, Ok a) :: ts => a :: values ts
  | (_, Err _) :: ts => values ts
  end.

Definition parallelLimit {A : Type} (tasks : list (nat * Result A)) : Result (list A) :=
  match firstError tasks with
  | Some (_, error) => Err error
  | None => Ok (values tasks)
  end.

(** The time at which [parallelLimit] calls back with an error. *)
Definition parallelTime {A : Type} (tasks : list (nat * Result A)) : nat :=
  match firstError tasks with
  | Some (time, _) => time
  | None => 0
  end.

(** ** The changelog store *)

Inductive Store : Type :=
  | Absent
  | Content (data : string)
  | Unreadable (error : string).

(** What the script finds outside: the changelog file, the output and the
    [close] code of [git log], those of [git show] for each hash, the error
    of [fs.writeFile], if any, the order in time in which the [git show]
    processes close (a smaller number is earlier), and the lines the
    [remove-markdown] package prints on the error stream when it is handed
    [undefined] in place of a text: it catches the error this raises in it,
    prints it and returns. *)
Record World : Type := {
  changelogStore : Store;
  gitLog : list string * option nat;
  gitShow : string -> list string * option nat;
  writeFailure : option string;
  closeTime : string -> nat;
  removeMdUndefined : list string
}.

Definition readChangelogFile (w : World) : Result string :=
  match changelogStore w with
  | Content data => Ok data
  | Unreadable error => Err error
  | Absent => Ok ""
  end.

(** The variables [getLastVersionFromChangelog] assigns. *)
Record Resume : Type := {
  oldChangelogHeader : string;
  oldChangelog : string;
  untilVersion : option string
}.

Definition noResume : Resume :=
  {| oldChangelogHeader := ""; oldChangelog := ""; untilVersion := None |}.

(** The iteratee over the lines of the old changelog. *)
Definition lastVersionStep (g : Resume) (line : string) : Resume :=
  let until :=
    if negb (Js.truthy (untilVersion g)) && versionRegExp line
    then Some line else untilVersion g in
  if Js.truthy until
  then {| oldChangelogHeader := oldChangelogHeader g;
          oldChangelog := oldChangelog g +++ line +++ LF;
          untilVersion := until |}
  else {| oldChangelogHeader := oldChangelogHeader g +++ line +++ LF;
          oldChangelog := oldChangelog g;
          untilVersion := until |}.

Definition getLastVersionFromChangelog (overwriteChangelog : bool) (changelog : string)
  : Resume :=
  if overwriteChangelog || negb (Js.truthy (Some changelog)) then noResume
  else
    let g := fold_left lastVersionStep (Js.splitLines changelog) noResume in
    {| oldChangelogHeader := oldChangelogHeader g;
       oldChangelog := substring 0 (String.length (oldChangelog g) - 1) (oldChangelog g);
       untilVersion := untilVersion g |}.

(** ** The Segmenter: [getVersionsWithCommits] *)

Module VC.
Record t : Type := { version : string; commits : list string }.
End VC.

Record Segmenter : Type := {
  versionsWithCommits : list VC.t;
  currentCommits : list string;
  currentVersion : option string;
  processKilled : bool
}.

Definition startSegmenter (startVersion : option string) : Segmenter :=
  {| versionsWithCommits := [];
     currentCommits := [];
     currentVersion := startVersion;
     processKilled := false |}.

(** [if (currentVersion) versionsWithCommits.push(...)]: the list after it. *)
Definition pushCurrent (st : Segmenter) : list VC.t :=
  match currentVersion st with
  | Some v =>
      if Js.truthy (currentVersion st)
      then versionsWithCommits st ++ [{| VC.version := v; VC.commits := currentCommits st |}]
      else versionsWithCommits st
  | None => versionsWithCommits st
  end.

(** [parts], [hashes] and [version] of a line of the history. *)
Definition lineParts (line : string) : list string :=
  Js.split (Js.sepChar "#") (Js.trim line).

Definition lineHashes (line : string) : list string :=
  Js.split (Js.sepChar " ") (hd "" (lineParts line)).

Definition lineVersion (line : string) : option string :=
  getTagVersion (nth_error (lineParts line) 1).

(** [processKilled = true] *)
Definition kill (st : Segmenter) : Segmenter :=
  {| versionsWithCommits := versionsWithCommits st;
     currentCommits := currentCommits st;
     currentVersion := currentVersion st;
     processKilled := true |}.

(** Lines 128 to 135: the open bucket is pushed, a new one is opened. *)
Definition openVersion (version : option string) (st : Segmenter) : Segmenter :=
  {| versionsWithCommits := pushCurrent st;
     currentCommits := [];
     currentVersion := version;
     processKilled := processKilled st |}.

(** [hashes[0].length && (allCommits || hashes.length > 2)] *)
Definition keepsCommit (allCommits : bool) (hashes : list string) : bool :=
  negb (Nat.eqb (String.length (hd "" hashes)) 0)
  && (allCommits || Nat.ltb 2 (List.length hashes)).

(** Lines 138 to 141. *)
Definition retain (allCommits : bool) (hashes : list string) (st : Segmenter) : Segmenter :=
  if keepsCommit allCommits hashes
  then {| versionsWithCommits := versionsWithCommits st;
          currentCommits := currentCommits st ++ [hd "" hashes];
          currentVersion := currentVersion st;
          processKilled := processKilled st |}
  else st.

(** The iteratee over the lines of a chunk; [false] is its [return false]. *)
Definition onLine (allCommits : bool) (untilVersion : option string)
    (st : Segmenter) (line : string) : Segmenter * bool :=
  let hashes := lineHashes line in
  let version := lineVersion line in
  if Js.truthy version then
    if Js.strictEq version untilVersion then (kill st, false)
    else (retain allCommits hashes (openVersion version st), true)
  else (retain allCommits hashes st, true).

(** The listener of the [data] event of [git log]. *)
Definition onData (allCommits : bool) (untilVersion : option string)
    (st : Segmenter) (data : string) : Segmenter :=
  if processKilled st then st
  else Js.forEach (onLine allCommits untilVersion) (Js.splitLines data) st.

(** The listener of its [close] event. *)
Definition onClose (st : Segmenter) (code : option nat) : Result (list VC.t) :=
  if Js.truthyCode code
  then Err ("Unable to get merge commits. Git errored with code #" +++ Js.showCode code)
  else Ok (pushCurrent st).

Definition getVersionsWithCommits (allCommits : bool) (startVersion untilVersion : option string)
    (log : list string * option nat) : Result (list VC.t) :=
  onClose
    (fold_left (onData allCommits untilVersion) (fst log) (startSegmenter startVersion))
    (snd log).

(** ** The Message Resolver: [getMessageForCommit] *)

(** The pattern of line 172, with the [i] flag: at the start of the line an
    optional group of [#] and [\s] repeated, then [Conflicts:].  The group
    is tried first, then skipped. *)
Definition conflictsRe (line : string) : bool :=
  let withGroup :=
    match line with
    | String c r => if Ascii.eqb c "#" then Js.litCI "Conflicts:" (Js.skipSpaces r) else None
    | "" => None
    end in
  match withGroup with
  | Some _ => true
  | None => Js.matched (Js.litCI "Conflicts:" line)
  end.

(** [/^Merge (remote-tracking )?branch .*/i] *)
Definition mergeBranchRe (line : string) : bool :=
  match Js.litCI "Merge " line with
  | Some r =>
      let withGroup :=
        match Js.litCI "remote-tracking " r with
        | Some r' => Js.litCI "branch " r'
        | None => None
        end in
      match withGroup with
      | Some _ => true
      | None => Js.matched (Js.litCI "branch " r)
      end
  | None => false
  end.

(** [/^See merge request !.*/i] *)
Definition seeMergeRequestRe (line : string) : bool :=
  Js.matched (Js.litCI "See merge request !" line).

(** The variables of [getMessageForCommit] its listeners assign. *)
Record Resolver : Type := {
  message : list string;
  isMergeRequest : bool;
  foundConflict : bool
}.

(** The reducer over the lines of a chunk; [filtered] is its accumulator. *)
Definition onBodyLine (acc : list string * Resolver) (line : string)
  : list string * Resolver :=
  let (filtered, st) := acc in
  let line := Js.trim line in
  let st1 :=
    if conflictsRe line
    then {| message := message st; isMergeRequest := isMergeRequest st;
            foundConflict := true |}
    else st in
  if foundConflict st1 then (filtered, st1)
  else if mergeBranchRe line then (filtered, st1)
  else if seeMergeRequestRe line then
    (filtered, {| message := message st1; isMergeRequest := true;
                  foundConflict := foundConflict st1 |})
  else if Nat.ltb 0 (String.length line) then (filtered ++ [line], st1)
  else (filtered, st1).

(** The listener of the [data] event of [git show]. *)
Definition onBody (st : Resolver) (data : string) : Resolver :=
  let (lines, st') := fold_left onBodyLine (Js.splitLines data) ([], st) in
  {| message := message st' ++ lines;
     isMergeRequest := isMergeRequest st';
     foundConflict := foundConflict st' |}.

Definition startResolver : Resolver :=
  {| message := []; isMergeRequest := false; foundConflict := false |}.

(** The text and the [isMergeRequest] flag handed to the callback. *)
Definition getMessageForCommit (shortCommitMessage : bool) (show : list string * option nat)
  : Result (string * bool) :=
  let st := fold_left onBody (fst show) startResolver in
  if Js.truthyCode (snd show)
  then Err ("Unable to get commit message. Git errored with code #"
            +++ Js.showCode (snd show))
  else Ok (if shortCommitMessage && Nat.ltb 0 (List.length (message st))
           then hd "" (message st)
           else Js.join LF (message st),
           isMergeRequest st).

(** ** Messages of the versions, and the Renderer *)

Module VM.
Record t : Type := { version : string; messages : list string }.
End VM.

(** The options the script reads.  [startVersion] is [None] for the default
    [false], and the version given with [-s] otherwise; [-s] given without a
    value, which leaves [true] there, is not covered. *)
Record Options : Type := {
  allCommits : bool;
  overwriteChangelog : bool;
  startVersion : option string;
  shortCommitMessage : bool
}.

(** [_.filter(messages)]: the truthy ones. *)
Definition filterEmptyMessages (messages : list string) : list string :=
  filter (fun m => Js.truthy (Some m)) messages.

Definition filterEmptyVersions (versionsWithMessages : list VM.t) : list VM.t :=
  filter (fun v => Nat.ltb 0 (List.length (VM.messages v))) versionsWithMessages.

(** [new Array(version.length + 1).join('=')] makes the underline. *)
Definition generateVersionChangelog (version : string) (messages : list string) : string :=
  fold_left (fun result message => result +++ " * " +++ message +++ LF)
    messages
    (version +++ LF +++ Js.join "=" (repeat "" (String.length version + 1)) +++ LF).

Definition generateChangelog (untilVersion : option string) (versionsWithMessages : list VM.t)
  : string :=
  Js.forEach
    (fun changelog v =>
       if Js.strictEq (Some (VM.version v)) untilVersion then (changelog, false)
       else (changelog
             +++ generateVersionChangelog (VM.version v) (VM.messages v) +++ LF,
             true))
    versionsWithMessages "".

(** What [writeChangelogFile] hands to [fs.writeFile], if it calls it, and
    what it passes to its callback. *)
Definition writeChangelogFile (g : Resume) (changelog : string) (w : World)
  : option string * Result unit :=
  if Js.truthy (Some changelog)
  then (Some (oldChangelogHeader g +++ changelog +++ oldChangelog g),
        match writeFailure w with
        | Some error => Err error
        | None => Ok tt
        end)
  else (None, Ok tt).

(** [console.error] lines and the exit status. *)
Definition handleFinish (r : Result unit) : list string * nat :=
  match r with
  | Err error => (["ERROR: " +++ error], 1)
  | Ok _ => ([], 0)
  end.

(** What a run leaves behind: the content it asked [fs.writeFile] to write
    ([None]: no write was asked for), the error stream, the exit status. *)
Record Outcome : Type := {
  written : option string;
  errorStream : list string;
  exitStatus : nat
}.

Section Pipeline.

(** The [remove-markdown] package, taken as a function on strings. *)
Variable removeMd : string -> string.

Variable opts : Options.
Variable w : World.

(** One task of [getMessagesForListOfCommits]: what it calls back with.
    When the fetch fails the callback receives the error, and the value
    beside it is not used. *)
Definition messageTask (hash : string) : Result string :=
  r <- getMessageForCommit (shortCommitMessage opts) (gitShow w hash) ;;
  Ok (if allCommits opts || snd r then removeMd (fst r) else "").

(** Line 210 on a failed fetch: [message] and [isMergeRequest] are
    undefined, so with [allCommits] on the argument [removeMd(message)] is
    still evaluated, before the callback is called with the error. *)
Definition messageTaskUndefined (hash : string) : list string :=
  match getMessageForCommit (shortCommitMessage opts) (gitShow w hash) with
  | Err _ => if allCommits opts then removeMdUndefined w else []
  | Ok _ => []
  end.

(** The tasks of [getMessagesForListOfCommits], each with the time at which
    its [git show] closes. *)
Definition messageTasks (commits : list string) : list (nat * Result string) :=
  map (fun hash => (closeTime w hash, messageTask hash)) commits.

Definition getMessagesForListOfCommits (commits : list string) : Result (list string) :=
  parallelLimit (messageTasks commits).

Definition versionTask (v : VC.t) : Result VM.t :=
  messages <- getMessagesForListOfCommits (VC.commits v) ;;
  Ok {| VM.version := VC.version v; VM.messages := filterEmptyMessages messages |}.

(** The tasks of [getMessagesForVersions]: a task that fails calls back when
    the first failing fetch of its commits does. *)
Definition versionTasks (versionsWithCommits : list VC.t) : list (nat * Result VM.t) :=
  map (fun v => (parallelTime (messageTasks (VC.commits v)), versionTask v))
    versionsWithCommits.

Definition getMessagesForVersions (versionsWithCommits : list VC.t) : Result (list VM.t) :=
  parallelLimit (versionTasks versionsWithCommits).

(** The [async.waterfall] up to [getVersionsWithCommits]. *)
Definition segmenting : Result (Resume * list VC.t) :=
  changelog <- readChangelogFile w ;;
  let g := getLastVersionFromChangelog (overwriteChangelog opts) changelog in
  versions <- getVersionsWithCommits (allCommits opts) (startVersion opts)
                (untilVersion g) (gitLog w) ;;
  Ok (g, versions).

(** The [async.waterfall] up to [generateChangelog]: what
    [getLastVersionFromChangelog] assigned, and the rendered changelog. *)
Definition rendering : Result (Resume * string) :=
  changelog <- readChangelogFile w ;;
  let g := getLastVersionFromChangelog (overwriteChangelog opts) changelog in
  versions <- getVersionsWithCommits (allCommits opts) (startVersion opts)
                (untilVersion g) (gitLog w) ;;
  versionsWithMessages <- getMessagesForVersions versions ;;
  Ok (g, generateChangelog (untilVersion g) (filterEmptyVersions versionsWithMessages)).

(** What the call [removeMd(undefined)] of line 210 prints in this run.
    The error of the first fetch that fails goes through both
    [parallelLimit] callbacks and the waterfall to [handleFinish] in the same
    turn, and [process.exit] ends the run there: the call is made once, by
    that fetch, and every failing fetch would print the same. *)
Definition undefinedMessage : list string :=
  match segmenting with
  | Ok (_, versions) =>
      match getMessagesForVersions versions with
      | Err _ => if allCommits opts then removeMdUndefined w else []
      | Ok _ => []
      end
  | Err _ => []
  end.

(** The whole waterfall with [handleFinish]; on the error stream, what
    [removeMd] printed comes before the line of [handleFinish]. *)
Definition mergelogga : Outcome :=
  match rendering with
  | Err error =>
      {| written := None;
         errorStream := undefinedMessage ++ fst (handleFinish (Err error));
         exitStatus := snd (handleFinish (Err error)) |}
  | Ok (g, changelog) =>
      let (file, r) := writeChangelogFile g changelog w in
      {| written := file;
         errorStream := fst (handleFinish r);
         exitStatus := snd (handleFinish r) |}
  end.

End Pipeline.

(** ** Notions the statements use *)

(** The lines the listeners see: every chunk is split on its own, and
    nothing of a chunk is kept for the next one, so a line of the output that
    the end of a chunk cuts is seen as two lines. *)
Definition linesOf (chunks : list string) : list string :=
  flat_map Js.splitLines chunks.

(** The [data] listener of [git log] on the lines of one or more chunks. *)
Definition feed (allCommits : bool) (untilVersion : option string)
    (st : Segmenter) (lines : list string) : Segmenter :=
  if processKilled st then st
  else Js.forEach (onLine allCommits untilVersion) lines st.

(** The buckets handed over when [git log] closes with a falsy code. *)
Definition segment (allCommits : bool) (startVersion untilVersion : option string)
    (chunks : list string) : list VC.t :=
  pushCurrent
    (fold_left (onData allCommits untilVersion) chunks (startSegmenter startVersion)).

(** The state of a Segmenter that had pushed [p] before it started. *)
Definition prepend (p : list VC.t) (st : Segmenter) : Segmenter :=
  {| versionsWithCommits := p ++ versionsWithCommits st;
     currentCommits := currentCommits st;
     currentVersion := currentVersion st;
     processKilled := processKilled st |}.

(** The hashes lines 138 to 141 push for a run of lines. *)
Definition keptOf (allCommits : bool) (lines : list string) : list string :=
  flat_map
    (fun line =>
       if keepsCommit allCommits (lineHashes line) then [hd "" (lineHashes line)] else [])
    lines.

(** The line carries the tag of the resume version (lines 121 and 122). *)
Definition resumeLine (untilVersion : option string) (line : string) : bool :=
  Js.truthy (lineVersion line) && Js.strictEq (lineVersion line) untilVersion.

(** The tags detected on a run of lines, in their order. *)
Definition tagsOf (lines : list string) : list string :=
  flat_map
    (fun line => match lineVersion line with Some v => [v] | None => [] end)
    lines.

(** The lines before the first one carrying the tag of the resume version. *)
Fixpoint beforeResume (untilVersion : option string) (lines : list string) : list string :=
  match lines with
  | [] => []
  | line :: rest =>
      if resumeLine untilVersion line then []
      else line :: beforeResume untilVersion rest
  end.

(** The version of the bucket open at the start, if there is one. *)
Definition startBucket (startVersion : option string) : list string :=
  match startVersion with
  | Some v => if Js.truthy startVersion then [v] else []
  | None => []
  end.

(** Line 86: the version a single decoration yields. *)
Definition decorationTag (decoration : string) : option string :=
  match tagMatch decoration with
  | Some m1 => if versionRegExp m1 then Some m1 else None
  | None => None
  end.

(** The pattern as the specification words it: [tag:], white space or none,
    an optional [v], then a version, with the case of letters ignored. *)
Definition claimedTag (decoration version : string) : Prop :=
  exists before t ws v,
    decoration = before +++ t +++ ws +++ v +++ version
    /\ Js.litCI "tag:" t = Some ""
    /\ Js.skipSpaces ws = ""
    /\ (v = "" \/ Js.litCI "v" v = Some "")
    /\ versionRegExp version = true.

(** The text is one that [.] repeated matches as a whole. *)
Definition oneLine (s : string) : Prop := Js.dotStar s = s.

(** A numeric component of a version: one digit or more, digits only. *)
Fixpoint allDigits (s : string) : bool :=
  match s with
  | "" => true
  | String c s' => Js.isDigit c && allDigits s'
  end.

Definition component (s : string) : Prop := s <> "" /\ allDigits s = true.

(** No digit comes next. *)
Definition digitsStop (s : string) : Prop :=
  match s with
  | "" => True
  | String c _ => Js.isDigit c = false
  end.

(** No line break of the text is a carriage return and line feed. *)
Fixpoint noCRLF (s : string) : bool :=
  match s with
  | "" => true
  | String c s' =>
      match s' with
      | String c' _ => negb (Ascii.eqb c "013" && Ascii.eqb c' "010") && noCRLF s'
      | "" => true
      end
  end.

(** The reducer of [getMessageForCommit] on the whole list [message]. *)
Definition bodyLine (st : Resolver) (line : string) : Resolver :=
  let (filtered, st') := onBodyLine ([], st) line in
  {| message := message st' ++ filtered;
     isMergeRequest := isMergeRequest st';
     foundConflict := foundConflict st' |}.

(** The list [message] with the accumulator of a reducer added to it. *)
Definition collect (acc : list string * Resolver) : Resolver :=
  {| message := message (snd acc) ++ fst acc;
     isMergeRequest := isMergeRequest (snd acc);
     foundConflict := foundConflict (snd acc) |}.

(** [foundConflict = true] *)
Definition conflictFound (st : Resolver) : Resolver :=
  {| message := message st; isMergeRequest := isMergeRequest st; foundConflict := true |}.

(** [isMergeRequest = true] *)
Definition mergeRequestFound (st : Resolver) : Resolver :=
  {| message := message st; isMergeRequest := true; foundConflict := foundConflict st |}.

(** A literal whose code units are no white space, whatever their case. *)
Fixpoint noSpaces (p : string) : bool :=
  match p with
  | "" => true
  | String a p' => negb (Js.isSpace (Js.canon a)) && noSpaces p'
  end.

(** Lines each followed by a line feed, as lines 69 and 71 add them. *)
Definition unlines (lines : list string) : string :=
  String.concat "" (map (fun line => line +++ LF) lines).

(** The text holds a carriage return. *)
Fixpoint hasCR (s : string) : bool :=
  match s with
  | "" => false
  | String c s' => Ascii.eqb c "013" || hasCR s'
  end.

(** The blocks [generateChangelog] appends, one per version it renders. *)
Fixpoint renderedBlocks (untilVersion : option string) (versions : list VM.t) : list string :=
  match versions with
  | [] => []
  | v :: rest =>
      if Js.strictEq (Some (VM.version v)) untilVersion then []
      else (generateVersionChangelog (VM.version v) (VM.messages v) +++ LF)
           :: renderedBlocks untilVersion rest
  end.


(** The same world with another changelog file. *)
Definition withStore (w : World) (store : Store) : World :=
  {| changelogStore := store;
     gitLog := gitLog w;
     gitShow := gitShow w;
     writeFailure := writeFailure w;
     closeTime := closeTime w;
     removeMdUndefined := removeMdUndefined w |}.

(** The same world with other child processes. *)
Definition withGit (w : World) (log : list string * option nat)
    (show : string -> list string * option nat) : World :=
  {| changelogStore := changelogStore w;
     gitLog := log;
     gitShow := show;
     writeFailure := writeFailure w;
     closeTime := closeTime w;
     removeMdUndefined := removeMdUndefined w |}.

(** The lines from the first tagged one on. *)
Fixpoint fromFirstTag (lines : list string) : list string :=
  match lines with
  | [] => []
  | line :: rest =>
      match lineVersion line with
      | Some _ => lines
      | None => fromFirstTag rest
      end
  end.

(** The lines of a body before the first one that starts a conflict section. *)
Fixpoint beforeConflict (lines : list string) : list string :=
  match lines with
  | [] => []
  | line :: rest =>
      if conflictsRe (Js.trim line) then [] else line :: beforeConflict rest
  end.

(** What lines 180 to 186 push for a line: the trimmed line, unless it is
    empty or one of the two kinds of administrative lines. *)
Definition textOfLine (line : string) : list string :=
  let t := Js.trim line in
  if mergeBranchRe t then []
  else if seeMergeRequestRe t then []
  else if Nat.ltb 0 (String.length t) then [t] else [].

(** The text holds a line feed. *)
Fixpoint hasLF (s : string) : bool :=
  match s with
  | "" => false
  | String c s' => Ascii.eqb c "010" || hasLF s'
  end.

(** [n] times [=]. *)
Fixpoint underline (n : nat) : string :=
  match n with
  | 0 => ""
  | S k => String "=" (underline k)
  end.

(** The line of one message in a block (line 249). *)
Definition bullet (message : string) : string := " * " +++ message +++ LF.

(** The block of a version, as [generateChangelog] appends it (line 263). *)
Definition block (v : VM.t) : string :=
  generateVersionChangelog (VM.version v) (VM.messages v) +++ LF.

(** * Properties *)

(** ** Strings *)

Lemma append_empty_r (s : string) : s +++ "" = s.
Proof. induction s as [|c s IH]; simpl; [reflexivity | now rewrite IH]. Qed.

Lemma append_assoc (a b c : string) : (a +++ b) +++ c = a +++ b +++ c.
Proof. induction a as [|x a IH]; simpl; [reflexivity | now rewrite IH]. Qed.

Lemma append_eq_empty (a b : string) : a +++ b = "" -> a = "" /\ b = "".
Proof. destruct a; simpl; [auto | discriminate]. Qed.

(** ** Version tags *)

Lemma versionRegExp_truthy (v : string) :
  versionRegExp v = true -> Js.truthy (Some v) = true.
Proof. destruct v; [discriminate | reflexivity]. Qed.

Lemma tagStep_version (tag : option string) (d : string) :
  (forall v, tag = Some v -> versionRegExp v = true) ->
  forall v, tagStep tag d = Some v -> versionRegExp v = true.
Proof.
  intros Htag v. unfold tagStep.
  destruct (tagMatch d) as [m|]; [|apply Htag].
  destruct (negb (Js.truthy tag) && versionRegExp m) eqn:E; [|apply Htag].
  intros [= <-]. now apply andb_prop in E.
Qed.

Lemma fold_tagStep_version (ds : list string) :
  forall tag, (forall v, tag = Some v -> versionRegExp v = true) ->
  forall v, fold_left tagStep ds tag = Some v -> versionRegExp v = true.
Proof.
  induction ds as [|d ds IH]; intros tag Htag v; simpl.
  - apply Htag.
  - apply IH. now apply tagStep_version.
Qed.

Lemma getTagVersion_version (r : option string) (v : string) :
  getTagVersion r = Some v -> versionRegExp v = true.
Proof.
  unfold getTagVersion. apply fold_tagStep_version. discriminate.
Qed.

Lemma lineVersion_truthy (line v : string) :
  lineVersion line = Some v -> Js.truthy (lineVersion line) = true.
Proof.
  intros H. rewrite H. apply versionRegExp_truthy.
  now apply getTagVersion_version with (r := nth_error (lineParts line) 1).
Qed.

(** ** The Segmenter, line by line *)

Section SegmenterLines.

Variable allCommits : bool.
Variable untilVersion : option string.

Lemma onLine_untagged (st : Segmenter) (line : string) :
  lineVersion line = None ->
  onLine allCommits untilVersion st line = (retain allCommits (lineHashes line) st, true).
Proof. intros H. unfold onLine. now rewrite H. Qed.

Lemma onLine_resume (st : Segmenter) (line : string) :
  resumeLine untilVersion line = true ->
  onLine allCommits untilVersion st line = (kill st, false).
Proof.
  unfold resumeLine, onLine. intros H. apply andb_prop in H as [H1 H2].
  now rewrite H1, H2.
Qed.

Lemma onLine_tagged (st : Segmenter) (line v : string) :
  lineVersion line = Some v ->
  resumeLine untilVersion line = false ->
  onLine allCommits untilVersion st line
  = (retain allCommits (lineHashes line) (openVersion (Some v) st), true).
Proof.
  intros Hv Hr. unfold resumeLine in Hr. unfold onLine.
  rewrite (lineVersion_truthy _ _ Hv) in *. simpl in Hr.
  rewrite Hr. now rewrite Hv.
Qed.

Lemma retain_killed (hashes : list string) (st : Segmenter) :
  processKilled (retain allCommits hashes st) = processKilled st.
Proof. unfold retain. now destruct (keepsCommit allCommits hashes). Qed.

Lemma onLine_killed (st : Segmenter) (line : string) :
  processKilled st = false ->
  processKilled (fst (onLine allCommits untilVersion st line))
  = negb (snd (onLine allCommits untilVersion st line)).
Proof.
  intros Hk. unfold onLine.
  destruct (Js.truthy (lineVersion line)); [|simpl; now rewrite retain_killed].
  destruct (Js.strictEq (lineVersion line) untilVersion); simpl; [reflexivity|].
  now rewrite retain_killed.
Qed.

Lemma feed_killed (st : Segmenter) (lines : list string) :
  processKilled st = true -> feed allCommits untilVersion st lines = st.
Proof. intros H. unfold feed. now rewrite H. Qed.

Lemma feed_nil (st : Segmenter) : feed allCommits untilVersion st [] = st.
Proof. unfold feed. now destruct (processKilled st). Qed.

Lemma feed_cons (st : Segmenter) (line : string) (lines : list string) :
  processKilled st = false ->
  feed allCommits untilVersion st (line :: lines)
  = feed allCommits untilVersion (fst (onLine allCommits untilVersion st line)) lines.
Proof.
  intros Hk. pose proof (onLine_killed st line Hk) as H.
  unfold feed at 1. rewrite Hk. simpl.
  destruct (onLine allCommits untilVersion st line) as [st' c]. simpl in *.
  destruct c; simpl in H.
  - unfold feed. now rewrite H.
  - now rewrite feed_killed.
Qed.

Lemma feed_app (l1 l2 : list string) :
  forall st,
    feed allCommits untilVersion st (l1 ++ l2)
    = feed allCommits untilVersion (feed allCommits untilVersion st l1) l2.
Proof.
  induction l1 as [|x l1 IH]; intros st; simpl.
  - now rewrite feed_nil.
  - destruct (processKilled st) eqn:Hk.
    + rewrite (feed_killed st (x :: l1) Hk).
      now rewrite !(feed_killed st _ Hk).
    + rewrite !feed_cons by assumption. apply IH.
Qed.

Lemma onData_feed (st : Segmenter) (data : string) :
  onData allCommits untilVersion st data
  = feed allCommits untilVersion st (Js.splitLines data).
Proof. reflexivity. Qed.

Lemma fold_onData (chunks : list string) :
  forall st,
    fold_left (onData allCommits untilVersion) chunks st
    = feed allCommits untilVersion st (linesOf chunks).
Proof.
  induction chunks as [|d chunks IH]; intros st; simpl.
  - now rewrite feed_nil.
  - rewrite IH, onData_feed. unfold linesOf. simpl. now rewrite feed_app.
Qed.

End SegmenterLines.

(** ** The Segmenter, bucket by bucket *)

Section SegmenterBuckets.

Variable allCommits : bool.
Variable untilVersion : option string.

Lemma retain_fields (hashes : list string) (st : Segmenter) :
  retain allCommits hashes st
  = {| versionsWithCommits := versionsWithCommits st;
       currentCommits :=
         currentCommits st
         ++ (if keepsCommit allCommits hashes then [hd "" hashes] else []);
       currentVersion := currentVersion st;
       processKilled := processKilled st |}.
Proof.
  unfold retain. destruct (keepsCommit allCommits hashes); [reflexivity|].
  rewrite app_nil_r. now destruct st.
Qed.

Lemma pushCurrent_kill (st : Segmenter) : pushCurrent (kill st) = pushCurrent st.
Proof. reflexivity. Qed.

Lemma pushCurrent_prepend (p : list VC.t) (st : Segmenter) :
  pushCurrent (prepend p st) = p ++ pushCurrent st.
Proof.
  unfold pushCurrent, prepend. simpl.
  destruct (currentVersion st) as [v|]; [|reflexivity].
  destruct (Js.truthy (Some v)); [|reflexivity]. now rewrite app_assoc.
Qed.

Lemma onLine_prepend (p : list VC.t) (st : Segmenter) (line : string) :
  onLine allCommits untilVersion (prepend p st) line
  = (prepend p (fst (onLine allCommits untilVersion st line)),
     snd (onLine allCommits untilVersion st line)).
Proof.
  unfold onLine.
  destruct (Js.truthy (lineVersion line)).
  - destruct (Js.strictEq (lineVersion line) untilVersion); [reflexivity|].
    simpl. f_equal. rewrite !retain_fields. unfold openVersion. simpl.
    rewrite pushCurrent_prepend. reflexivity.
  - simpl. f_equal. rewrite !retain_fields. reflexivity.
Qed.

Lemma feed_prepend (p : list VC.t) (lines : list string) :
  forall st,
    feed allCommits untilVersion (prepend p st) lines
    = prepend p (feed allCommits untilVersion st lines).
Proof.
  induction lines as [|x lines IH]; intros st.
  - now rewrite !feed_nil.
  - destruct (processKilled st) eqn:Hk.
    + now rewrite !feed_killed.
    + rewrite !feed_cons by assumption.
      rewrite onLine_prepend. simpl. apply IH.
Qed.

Lemma feed_untagged (mid : list string) :
  forall st,
    (forall l, In l mid -> lineVersion l = None) ->
    processKilled st = false ->
    feed allCommits untilVersion st mid
    = {| versionsWithCommits := versionsWithCommits st;
         currentCommits := currentCommits st ++ keptOf allCommits mid;
         currentVersion := currentVersion st;
         processKilled := false |}.
Proof.
  induction mid as [|x mid IH]; intros st Hmid Hk.
  - rewrite feed_nil. simpl. rewrite app_nil_r. destruct st. simpl in *. now subst.
  - rewrite feed_cons by assumption.
    rewrite onLine_untagged by (apply Hmid; now left). simpl.
    rewrite IH.
    + rewrite retain_fields. simpl. now rewrite <- app_assoc.
    + intros l Hl. apply Hmid. now right.
    + now rewrite retain_killed.
Qed.

Lemma feed_tagged (st : Segmenter) (ln v : string) (mid : list string) :
  lineVersion ln = Some v ->
  resumeLine untilVersion ln = false ->
  (forall l, In l mid -> lineVersion l = None) ->
  processKilled st = false ->
  feed allCommits untilVersion st (ln :: mid)
  = {| versionsWithCommits := pushCurrent st;
       currentCommits := keptOf allCommits (ln :: mid);
       currentVersion := Some v;
       processKilled := false |}.
Proof.
  intros Hv Hr Hmid Hk.
  rewrite feed_cons by assumption.
  rewrite (onLine_tagged _ _ _ _ v) by assumption. simpl.
  rewrite feed_untagged; [|assumption|now rewrite retain_killed].
  rewrite retain_fields. reflexivity.
Qed.

Lemma feed_alive (lines : list string) :
  forall st,
    (forall l, In l lines -> resumeLine untilVersion l = false) ->
    processKilled st = false ->
    processKilled (feed allCommits untilVersion st lines) = false.
Proof.
  induction lines as [|x lines IH]; intros st Hl Hk.
  - now rewrite feed_nil.
  - rewrite feed_cons by assumption. apply IH.
    + intros l H. apply Hl. now right.
    + rewrite onLine_killed by assumption.
      unfold onLine. pose proof (Hl x (or_introl eq_refl)) as Hx.
      unfold resumeLine in Hx.
      destruct (Js.truthy (lineVersion x)); [|reflexivity].
      simpl in Hx. now rewrite Hx.
Qed.

Lemma feed_resume (st : Segmenter) (ln : string) (post : list string) :
  resumeLine untilVersion ln = true ->
  processKilled st = false ->
  feed allCommits untilVersion st (ln :: post) = kill st.
Proof.
  intros Hr Hk. rewrite feed_cons by assumption.
  rewrite onLine_resume by assumption. now rewrite feed_killed.
Qed.

(** What follows a tag does not depend on what came before it. *)
Lemma pushCurrent_feed_fresh (st : Segmenter) (rest : list string) :
  processKilled st = false ->
  match rest with [] => True | l :: _ => lineVersion l <> None end ->
  pushCurrent (feed allCommits untilVersion st rest)
  = pushCurrent st
    ++ pushCurrent (feed allCommits untilVersion (startSegmenter None) rest).
Proof.
  intros Hk Hrest. destruct rest as [|l rest].
  - rewrite !feed_nil. simpl. now rewrite app_nil_r.
  - destruct (lineVersion l) as [v|] eqn:Hv; [|contradiction].
    destruct (resumeLine untilVersion l) eqn:Hr.
    + rewrite !feed_resume by (assumption || reflexivity).
      rewrite !pushCurrent_kill. simpl. now rewrite app_nil_r.
    + rewrite !feed_cons by (assumption || reflexivity).
      rewrite !(onLine_tagged _ _ _ _ v) by assumption. simpl.
      replace (retain allCommits (lineHashes l) (openVersion (Some v) st))
        with (prepend (pushCurrent st)
                (retain allCommits (lineHashes l)
                   (openVersion (Some v) (startSegmenter None)))).
      * now rewrite feed_prepend, pushCurrent_prepend.
      * rewrite !retain_fields. unfold prepend, openVersion. simpl.
        rewrite app_nil_r. now rewrite Hk.
Qed.


Lemma versions_pushCurrent_retain (hashes : list string) (st : Segmenter) :
  map VC.version (pushCurrent (retain allCommits hashes st))
  = map VC.version (pushCurrent st).
Proof.
  rewrite retain_fields. unfold pushCurrent. simpl.
  destruct (currentVersion st) as [v|]; [|reflexivity].
  destruct (Js.truthy (Some v)); [|reflexivity].
  now rewrite !map_app.
Qed.

Lemma versions_feed (lines : list string) :
  forall st,
    processKilled st = false ->
    map VC.version (pushCurrent (feed allCommits untilVersion st lines))
    = map VC.version (pushCurrent st) ++ tagsOf (beforeResume untilVersion lines).
Proof.
  induction lines as [|x lines IH]; intros st Hk.
  - rewrite feed_nil. simpl. now rewrite app_nil_r.
  - simpl. destruct (resumeLine untilVersion x) eqn:Hr.
    + rewrite feed_resume by assumption. simpl. now rewrite app_nil_r.
    + rewrite feed_cons by assumption. unfold tagsOf. simpl.
      destruct (lineVersion x) as [v|] eqn:Hv.
      * rewrite (onLine_tagged _ _ _ _ v) by assumption. simpl.
        rewrite IH by now rewrite retain_killed.
        rewrite versions_pushCurrent_retain.
        unfold pushCurrent at 1, openVersion. simpl.
        pose proof (lineVersion_truthy _ _ Hv) as Ht. rewrite Hv in Ht.
        simpl in Ht. rewrite Ht.
        rewrite map_app. simpl. rewrite <- app_assoc. reflexivity.
      * rewrite onLine_untagged by assumption. simpl.
        rewrite IH by now rewrite retain_killed.
        now rewrite versions_pushCurrent_retain.
Qed.

Lemma versions_start (startVersion : option string) :
  map VC.version (pushCurrent (startSegmenter startVersion)) = startBucket startVersion.
Proof.
  unfold pushCurrent, startBucket. simpl.
  destruct startVersion as [v|]; [|reflexivity].
  now destruct (Js.truthy (Some v)).
Qed.

End SegmenterBuckets.

Lemma getVersionsWithCommits_segment (allCommits : bool) (startVersion untilVersion : option string)
    (chunks : list string) (code : option nat) :
  Js.truthyCode code = false ->
  getVersionsWithCommits allCommits startVersion untilVersion (chunks, code)
  = Ok (segment allCommits startVersion untilVersion chunks).
Proof. intros H. unfold getVersionsWithCommits, onClose. simpl. now rewrite H. Qed.

Lemma segment_feed (allCommits : bool) (startVersion untilVersion : option string)
    (chunks : list string) :
  segment allCommits startVersion untilVersion chunks
  = pushCurrent
      (feed allCommits untilVersion (startSegmenter startVersion) (linesOf chunks)).
Proof. unfold segment. now rewrite fold_onData. Qed.

(** The same output of [git log] in one chunk and in two: the line cut by
    the end of the first chunk is read as two lines, and its tag is lost. *)
Remark chunk_boundary_cuts_line :
  linesOf ["a1 p1 p2#tag: v1.1.0"] = ["a1 p1 p2#tag: v1.1.0"]
  /\ linesOf ["a1 p1 p2#tag: v1"; ".1.0"] = ["a1 p1 p2#tag: v1"; ".1.0"]
  /\ getVersionsWithCommits false None None (["a1 p1 p2#tag: v1.1.0"], None)
     = Ok [{| VC.version := "1.1.0"; VC.commits := ["a1"] |}]
  /\ getVersionsWithCommits false None None (["a1 p1 p2#tag: v1"; ".1.0"], None) = Ok [].
Proof. repeat split; reflexivity. Qed.

Lemma tagsOf_In (lines : list string) (v : string) :
  In v (tagsOf lines) -> exists l, In l lines /\ lineVersion l = Some v.
Proof.
  unfold tagsOf. rewrite in_flat_map. intros [l [Hl Hv]].
  exists l. split; [assumption|].
  destruct (lineVersion l) as [v'|]; simpl in Hv; [|contradiction].
  destruct Hv as [->|[]]. reflexivity.
Qed.

Lemma beforeResume_In (untilVersion : option string) (lines : list string) :
  forall l, In l (beforeResume untilVersion lines) -> In l lines.
Proof.
  induction lines as [|x lines IH]; simpl; intros l Hl; [contradiction|].
  destruct (resumeLine untilVersion x); [contradiction|].
  destruct Hl as [<-|Hl]; auto.
Qed.

Lemma resumeLine_other (u : string) (line : string) :
  lineVersion line <> Some u -> resumeLine (Some u) line = false.
Proof.
  intros H. unfold resumeLine.
  destruct (lineVersion line) as [v|]; [|reflexivity].
  simpl Js.strictEq. destruct (String.eqb v u) eqn:E.
  - apply String.eqb_eq in E. subst. now contradiction H.
  - apply andb_false_r.
Qed.

Lemma resumeLine_same (u : string) (line : string) :
  lineVersion line = Some u -> resumeLine (Some u) line = true.
Proof.
  intros H. unfold resumeLine. rewrite (lineVersion_truthy _ _ H), H.
  simpl. apply String.eqb_refl.
Qed.

(** C1 (amended): when the Segmenter detects the tag of the resume version,
    the scan stops at that line.  The state is the one reached just before
    the line, with the process marked as killed: nothing is pushed, the open
    bucket is left as it is, and neither the commit of that line nor any
    later line is looked at.  When [git log] then closes with a falsy code,
    the open bucket is sealed and pushed as at the end of any stream, so the
    output is the one of the stream cut just before that line.  A bucket of
    the output carries the resume version only if that version was given as
    the start version. *)
Theorem resume_tag_halts_scan
    (allCommits : bool) (startVersion : option string) (u : string)
    (chunks : list string) (code : option nat)
    (pre post : list string) (ln : string) :
  linesOf chunks = pre ++ ln :: post ->
  (forall l, In l pre -> lineVersion l <> Some u) ->
  lineVersion ln = Some u ->
  Js.truthyCode code = false ->
  let st := feed allCommits (Some u) (startSegmenter startVersion) pre in
  fold_left (onData allCommits (Some u)) chunks (startSegmenter startVersion) = kill st
  /\ getVersionsWithCommits allCommits startVersion (Some u) (chunks, code)
     = Ok (pushCurrent st)
  /\ (forall chunks',
        linesOf chunks' = pre ->
        getVersionsWithCommits allCommits startVersion (Some u) (chunks', code)
        = Ok (pushCurrent st))
  /\ (forall b, In b (pushCurrent st) -> VC.version b = u -> startVersion = Some u).
Proof.
  intros Hlines Hpre Hln Hcode st.
  assert (Hnr : forall l, In l pre -> resumeLine (Some u) l = false).
  { intros l Hl. apply resumeLine_other. now apply Hpre. }
  assert (Halive : processKilled st = false).
  { apply feed_alive; [assumption | reflexivity]. }
  assert (Hfold : fold_left (onData allCommits (Some u)) chunks (startSegmenter startVersion)
                  = kill st).
  { rewrite fold_onData, Hlines, feed_app.
    apply feed_resume; [now apply resumeLine_same | assumption]. }
  split; [assumption|]. split; [|split].
  - rewrite getVersionsWithCommits_segment by assumption.
    unfold segment. now rewrite Hfold.
  - intros chunks' H'. rewrite getVersionsWithCommits_segment by assumption.
    now rewrite segment_feed, H'.
  - intros b Hb Hu.
    apply (in_map VC.version) in Hb. rewrite Hu in Hb.
    unfold st in Hb. rewrite versions_feed, versions_start in Hb by reflexivity.
    apply in_app_or in Hb as [Hb|Hb].
    + unfold startBucket in Hb. destruct startVersion as [v|]; [|contradiction].
      destruct (Js.truthy (Some v)); [|contradiction].
      destruct Hb as [->|[]]. reflexivity.
    + apply tagsOf_In in Hb as [l [Hl Hv]].
      apply beforeResume_In in Hl. now elim (Hpre l Hl).
Qed.

(** The history of the examples: version 1.1.0 with two merges, then the
    commit tagged 1.0.0 and an older merge. *)
Lemma resume_tag_halts_scan_witness :
  let chunks := ["a1 p1 p2#tag: v1.1.0" +++ LF +++ "b2 p3 p4#" +++ LF
                 +++ "c3 p5#tag: v1.0.0" +++ LF +++ "d4 p6 p7#"] in
  linesOf chunks = ["a1 p1 p2#tag: v1.1.0"; "b2 p3 p4#"] ++ "c3 p5#tag: v1.0.0" :: ["d4 p6 p7#"]
  /\ lineVersion "c3 p5#tag: v1.0.0" = Some "1.0.0"
  /\ getVersionsWithCommits false None (Some "1.0.0") (chunks, None)
     = Ok (pushCurrent
             (feed false (Some "1.0.0") (startSegmenter None)
                ["a1 p1 p2#tag: v1.1.0"; "b2 p3 p4#"])).
Proof.
  intros chunks.
  assert (H1 : linesOf chunks
               = ["a1 p1 p2#tag: v1.1.0"; "b2 p3 p4#"] ++ "c3 p5#tag: v1.0.0" :: ["d4 p6 p7#"])
    by reflexivity.
  assert (H3 : lineVersion "c3 p5#tag: v1.0.0" = Some "1.0.0") by reflexivity.
  split; [exact H1|]. split; [exact H3|].
  refine (proj1 (proj2 (resume_tag_halts_scan false None "1.0.0" chunks None
                          _ _ _ H1 _ H3 eq_refl))).
  intros l [<-|[<-|[]]]; vm_compute; discriminate.
Defined.

(** C1 as stated fails.  In this history the bucket of 1.1.0 is open, and
    nothing has been pushed, when the tag of the resume version 1.0.0 is
    detected; the output is not the empty list of pushed buckets: the open
    bucket is in it.  And with 1.0.0 also given as the start version, the
    resume version is a bucket of the output. *)
Lemma resume_discards_open_bucket_counterexample :
  let chunks := ["a1 p1 p2#tag: v1.1.0" +++ LF +++ "b2 p3 p4#" +++ LF
                 +++ "c3 p5#tag: v1.0.0" +++ LF +++ "d4 p6 p7#"] in
  feed false (Some "1.0.0") (startSegmenter None) ["a1 p1 p2#tag: v1.1.0"; "b2 p3 p4#"]
  = {| versionsWithCommits := [];
       currentCommits := ["a1"; "b2"];
       currentVersion := Some "1.1.0";
       processKilled := false |}
  /\ getVersionsWithCommits false None (Some "1.0.0") (chunks, None)
     = Ok [{| VC.version := "1.1.0"; VC.commits := ["a1"; "b2"] |}]
  /\ getVersionsWithCommits false None (Some "1.0.0") (chunks, None) <> Ok []
  /\ getVersionsWithCommits false (Some "1.0.0") (Some "1.0.0") (chunks, None)
     = Ok [{| VC.version := "1.0.0"; VC.commits := [] |};
           {| VC.version := "1.1.0"; VC.commits := ["a1"; "b2"] |}].
Proof.
  intros chunks. repeat split; try reflexivity. vm_compute. discriminate.
Qed.

Lemma pushCurrent_open (vs : list VC.t) (cs : list string) (v : string) (k : bool) :
  versionRegExp v = true ->
  pushCurrent {| versionsWithCommits := vs; currentCommits := cs;
                 currentVersion := Some v; processKilled := k |}
  = vs ++ [{| VC.version := v; VC.commits := cs |}].
Proof.
  intros Hv. unfold pushCurrent. simpl currentVersion.
  now rewrite (versionRegExp_truthy v Hv).
Qed.

(** X19: among the lines the listener sees, when a line carries a new
    version tag [v], the open bucket, if there is one, is pushed and a bucket
    is opened for [v] with the commit of that line, if it is retained.  The
    retained commits of the tagged line and of the untagged lines [mid] up to
    the next tagged line make the bucket of [v], which stands in the output
    after the buckets of the lines before and ahead of the buckets of the
    lines after.  The versions of the output are the start version, if any,
    and then the tags in the order of their detection. *)
Theorem tag_opens_bucket
    (allCommits : bool) (startVersion untilVersion : option string)
    (chunks before after : list string) (code : option nat)
    (ln v : string) (mid : list string) :
  linesOf chunks = linesOf before ++ ln :: mid ++ linesOf after ->
  (forall l, In l (linesOf before) -> resumeLine untilVersion l = false) ->
  lineVersion ln = Some v ->
  resumeLine untilVersion ln = false ->
  (forall l, In l mid -> lineVersion l = None) ->
  match linesOf after with [] => True | l :: _ => lineVersion l <> None end ->
  Js.truthyCode code = false ->
  (forall st,
      processKilled st = false ->
      feed allCommits untilVersion st [ln]
      = {| versionsWithCommits := pushCurrent st;
           currentCommits := keptOf allCommits [ln];
           currentVersion := Some v;
           processKilled := false |})
  /\ getVersionsWithCommits allCommits startVersion untilVersion (chunks, code)
     = Ok (segment allCommits startVersion untilVersion before
           ++ {| VC.version := v; VC.commits := keptOf allCommits (ln :: mid) |}
           :: segment allCommits None untilVersion after)
  /\ (exists buckets,
        getVersionsWithCommits allCommits startVersion untilVersion (chunks, code)
        = Ok buckets
        /\ map VC.version buckets
           = startBucket startVersion
             ++ tagsOf (beforeResume untilVersion (linesOf chunks))).
Proof.
  intros Hlines Hbefore Hv Hnew Hmid Hafter Hcode.
  split; [|split].
  - intros st Hk. apply feed_tagged; try assumption. intros l [].
  - rewrite getVersionsWithCommits_segment by assumption. f_equal.
    rewrite !segment_feed, Hlines.
    set (s1 := feed allCommits untilVersion (startSegmenter startVersion) (linesOf before)).
    assert (H1 : processKilled s1 = false) by (apply feed_alive; auto).
    change (ln :: mid ++ linesOf after) with ((ln :: mid) ++ linesOf after).
    rewrite !feed_app. fold s1.
    rewrite (feed_tagged allCommits untilVersion s1 ln v mid) by assumption.
    rewrite pushCurrent_feed_fresh by (assumption || reflexivity).
    rewrite pushCurrent_open by (eapply getTagVersion_version; exact Hv).
    now rewrite <- app_assoc.
  - exists (segment allCommits startVersion untilVersion chunks).
    split; [now apply getVersionsWithCommits_segment|].
    rewrite segment_feed, versions_feed by reflexivity. now rewrite versions_start.
Qed.

Lemma tag_opens_bucket_witness :
  let before := ["e0 p8 p9#tag: v1.2.0"] in
  let after := ["c3 p5#tag: v1.0.0" +++ LF +++ "d4 p6 p7#"] in
  let chunks := before ++ ["a1 p1 p2#tag: v1.1.0" +++ LF +++ "b2 p3 p4#"] ++ after in
  lineVersion "a1 p1 p2#tag: v1.1.0" = Some "1.1.0"
  /\ getVersionsWithCommits false None None (chunks, Some 0)
     = Ok (segment false None None before
           ++ {| VC.version := "1.1.0";
                 VC.commits := keptOf false ["a1 p1 p2#tag: v1.1.0"; "b2 p3 p4#"] |}
           :: segment false None None after).
Proof.
  intros before after chunks.
  assert (Hv : lineVersion "a1 p1 p2#tag: v1.1.0" = Some "1.1.0") by reflexivity.
  split; [exact Hv|].
  refine (proj1 (proj2 (tag_opens_bucket false None None chunks before after (Some 0)
                          "a1 p1 p2#tag: v1.1.0" "1.1.0" ["b2 p3 p4#"]
                          eq_refl _ Hv eq_refl _ _ eq_refl))).
  - intros l [<-|[]]. reflexivity.
  - intros l [<-|[]]. reflexivity.
  - vm_compute. discriminate.
Defined.

(** C2: the listener of [data] splits each chunk on its own (line 115) and
    keeps nothing of a chunk for the next one, so a line of the output that
    the end of a chunk cuts is read as two lines.  The same output of
    [git log], whole and cut inside the line tagged v1.1.0: whole, the commit
    [a1] of that line opens the bucket of 1.1.0 and [b2] follows it there;
    cut, no bucket is opened for 1.1.0, and [a1] and [b2] are put in the
    bucket of 1.2.0. *)
Theorem tag_cut_by_chunk_end :
  let whole := ["e0 p8 p9#tag: v1.2.0" +++ LF +++ "a1 p1 p2#tag: v1.1.0" +++ LF
                +++ "b2 p3 p4#"] in
  let cut := ["e0 p8 p9#tag: v1.2.0" +++ LF +++ "a1 p1 p2#ta";
              "g: v1.1.0" +++ LF +++ "b2 p3 p4#"] in
  String.concat "" cut = String.concat "" whole
  /\ linesOf whole = ["e0 p8 p9#tag: v1.2.0"; "a1 p1 p2#tag: v1.1.0"; "b2 p3 p4#"]
  /\ linesOf cut = ["e0 p8 p9#tag: v1.2.0"; "a1 p1 p2#ta"; "g: v1.1.0"; "b2 p3 p4#"]
  /\ getVersionsWithCommits false None None (whole, Some 0)
     = Ok [{| VC.version := "1.2.0"; VC.commits := ["e0"] |};
           {| VC.version := "1.1.0"; VC.commits := ["a1"; "b2"] |}]
  /\ getVersionsWithCommits false None None (cut, Some 0)
     = Ok [{| VC.version := "1.2.0"; VC.commits := ["e0"; "a1"; "b2"] |}].
Proof. intros whole cut. repeat split; reflexivity. Qed.

Lemma keepsCommit_spec (allCommits : bool) (hashes : list string) :
  keepsCommit allCommits hashes = true
  <-> hd "" hashes <> "" /\ (allCommits = true \/ 2 < List.length hashes).
Proof.
  unfold keepsCommit. rewrite andb_true_iff, negb_true_iff, orb_true_iff.
  rewrite Nat.eqb_neq, Nat.ltb_lt.
  assert (H : String.length (hd "" hashes) <> 0 <-> hd "" hashes <> "").
  { destruct (hd "" hashes); simpl; split; intros H; congruence. }
  now rewrite H.
Qed.

(** C3 (amended): for every parsed line of the history other than a line
    carrying the tag of the resume version, the hash is pushed onto the open
    bucket if and only if the hash field is not empty and either all commits
    are wanted or the list of tokens before [#] has more than two members;
    otherwise the open bucket stays as it is.  The open bucket is the empty
    one just opened when the line carries a tag, the current one otherwise. *)
Theorem commit_retention
    (allCommits : bool) (untilVersion : option string) (st : Segmenter) (line : string) :
  resumeLine untilVersion line = false ->
  let hashes := lineHashes line in
  let kept := hd "" hashes <> "" /\ (allCommits = true \/ 2 < List.length hashes) in
  let bucket := match lineVersion line with
                | Some _ => []
                | None => currentCommits st
                end in
  let st' := fst (onLine allCommits untilVersion st line) in
  (currentCommits st' = bucket ++ [hd "" hashes] <-> kept)
  /\ (currentCommits st' = bucket <-> ~ kept)
  /\ snd (onLine allCommits untilVersion st line) = true.
Proof.
  intros Hr hashes kept bucket st'.
  assert (Hst : currentCommits st'
                = bucket ++ (if keepsCommit allCommits hashes then [hd "" hashes] else [])
                /\ snd (onLine allCommits untilVersion st line) = true).
  { unfold st', bucket. destruct (lineVersion line) as [v|] eqn:Hv.
    - rewrite (onLine_tagged _ _ _ _ v) by assumption. simpl.
      now rewrite retain_fields.
    - rewrite onLine_untagged by assumption. simpl. now rewrite retain_fields. }
  destruct Hst as [Hst Hc]. rewrite Hst.
  pose proof (keepsCommit_spec allCommits hashes) as Hk. fold kept in Hk.
  destruct (keepsCommit allCommits hashes).
  - split; [|split]; [tauto | | assumption].
    split; [|tauto]. intros H.
    apply (f_equal (@List.length string)) in H. rewrite length_app in H. simpl in H. lia.
  - rewrite app_nil_r. split; [|split]; [ | | assumption].
    + split.
      * intros H. apply (f_equal (@List.length string)) in H.
        rewrite length_app in H. simpl in H. lia.
      * intros H. apply Hk in H. discriminate.
    + split; [|reflexivity]. intros _ H. apply Hk in H. discriminate.
Qed.

Lemma commit_retention_witness :
  let st := {| versionsWithCommits := []; currentCommits := ["a1"];
               currentVersion := Some "1.1.0"; processKilled := false |} in
  resumeLine (Some "1.0.0") "b2 p3 p4#" = false
  /\ (currentCommits (fst (onLine false (Some "1.0.0") st "b2 p3 p4#"))
      = ["a1"] ++ [hd "" (lineHashes "b2 p3 p4#")]
      <-> hd "" (lineHashes "b2 p3 p4#") <> ""
          /\ (false = true \/ 2 < List.length (lineHashes "b2 p3 p4#"))).
Proof.
  intros st. split; [reflexivity|].
  exact (proj1 (commit_retention false (Some "1.0.0") st "b2 p3 p4#" eq_refl)).
Defined.

(** C3 as stated fails on the line that carries the tag of the resume
    version: its hash field is not empty and it has two parents, and its hash
    is not pushed onto the open bucket. *)
Lemma commit_retention_counterexample :
  let st := {| versionsWithCommits := []; currentCommits := ["a1"];
               currentVersion := Some "1.1.0"; processKilled := false |} in
  let line := "c3 p1 p2#tag: v1.0.0" in
  lineHashes line = ["c3"; "p1"; "p2"]
  /\ hd "" (lineHashes line) <> ""
  /\ 2 < List.length (lineHashes line)
  /\ currentCommits (fst (onLine false (Some "1.0.0") st line)) = ["a1"]
  /\ ~ In "c3" (currentCommits (fst (onLine false (Some "1.0.0") st line))).
Proof.
  intros st line. repeat split; try reflexivity.
  - vm_compute. discriminate.
  - vm_compute. lia.
  - vm_compute. intros [H|[]]. discriminate.
Qed.



(** ** Code units *)

Ltac each_ascii c := destruct c as [[] [] [] [] [] [] [] []].

Lemma digit_not_space (c : ascii) : Js.isDigit c = true -> Js.isSpace c = false.
Proof. each_ascii c; vm_compute; congruence. Qed.

Lemma digit_not_terminator (c : ascii) :
  Js.isDigit c = true -> Js.isLineTerminator c = false.
Proof. each_ascii c; vm_compute; congruence. Qed.

Lemma digit_not_v (c : ascii) :
  Js.isDigit c = true -> Ascii.eqb (Js.canon c) "V" = false.
Proof. each_ascii c; vm_compute; congruence. Qed.

Lemma canon_v (c : ascii) :
  Ascii.eqb (Js.canon "v") (Js.canon c) = true ->
  Ascii.eqb (Js.canon c) "V" = true /\ Js.isSpace c = false.
Proof. each_ascii c; vm_compute; intuition congruence. Qed.

Lemma space_canon (c : ascii) : Js.isSpace c = true -> Js.canon c = c.
Proof. each_ascii c; vm_compute; congruence. Qed.

(** ** First matching decoration *)

Lemma litCI_append (p t r : string) :
  Js.litCI p t = Some "" -> Js.litCI p (t +++ r) = Some r.
Proof.
  revert t. induction p as [|a p IH]; intros t; simpl.
  - intros [= ->]. reflexivity.
  - destruct t as [|c t]; [discriminate|]. simpl.
    destruct (Ascii.eqb (Js.canon a) (Js.canon c)); [apply IH | discriminate].
Qed.

Lemma skipSpaces_append (ws r : string) :
  Js.skipSpaces ws = "" -> Js.skipSpaces (ws +++ r) = Js.skipSpaces r.
Proof.
  induction ws as [|c ws IH]; simpl; [reflexivity|].
  destruct (Js.isSpace c); [assumption | discriminate].
Qed.

Lemma oneLine_skipDigits (s : string) : oneLine (Js.skipDigits s) -> oneLine s.
Proof.
  unfold oneLine. induction s as [|c s IH]; simpl; [reflexivity|].
  destruct (Js.isDigit c) eqn:Hd; [|auto].
  intros H. rewrite (digit_not_terminator c Hd). now rewrite IH.
Qed.

Lemma oneLine_digits1 (s r : string) : Js.digits1 s = Some r -> oneLine r -> oneLine s.
Proof.
  destruct s as [|c s]; simpl; [discriminate|].
  destruct (Js.isDigit c) eqn:Hd; [|discriminate].
  intros [= <-] H. apply oneLine_skipDigits in H. unfold oneLine in *. simpl.
  rewrite (digit_not_terminator c Hd). now rewrite H.
Qed.

Lemma oneLine_dotDigits1 (s r : string) : dotDigits1 s = Some r -> oneLine r -> oneLine s.
Proof.
  destruct s as [|c s]; simpl; [discriminate|].
  destruct (Ascii.eqb c ".") eqn:Hc; [|discriminate].
  apply Ascii.eqb_eq in Hc. subst c. intros Hd H.
  apply (oneLine_digits1 _ _ Hd) in H. unfold oneLine in *. simpl. now rewrite H.
Qed.

Lemma atEnd_oneLine (s : string) : atEnd s = true -> oneLine s.
Proof. destruct s; [reflexivity | discriminate]. Qed.

Lemma versionRegExp_oneLine (v : string) : versionRegExp v = true -> oneLine v.
Proof.
  unfold versionRegExp.
  destruct (Js.digits1 v) as [s1|] eqn:H1; [|discriminate].
  destruct (dotDigits1 s1) as [s2|] eqn:H2; [|discriminate].
  intros H. apply (oneLine_digits1 _ _ H1), (oneLine_dotDigits1 _ _ H2).
  destruct (dotDigits1 s2) as [s3|] eqn:H3; [|now apply atEnd_oneLine].
  apply (oneLine_dotDigits1 _ _ H3).
  destruct (dotDigits1 s3) as [s4|] eqn:H4; [|now apply atEnd_oneLine].
  apply (oneLine_dotDigits1 _ _ H4). now apply atEnd_oneLine.
Qed.

Lemma versionRegExp_digit (v : string) :
  versionRegExp v = true -> exists c v', v = String c v' /\ Js.isDigit c = true.
Proof.
  unfold versionRegExp. destruct v as [|c v']; [discriminate|]. simpl.
  destruct (Js.isDigit c) eqn:Hd; [|discriminate]. intros _. now exists c, v'.
Qed.

Lemma skipDigits_inv (s : string) :
  exists ds, s = ds +++ Js.skipDigits s /\ allDigits ds = true.
Proof.
  induction s as [|c s [ds [IH1 IH2]]]; [now exists ""|]. simpl.
  destruct (Js.isDigit c) eqn:Hc; [|now exists ""].
  exists (String c ds). simpl. rewrite Hc, IH2. now rewrite <- IH1.
Qed.

Lemma digits1_inv (s r : string) :
  Js.digits1 s = Some r -> exists ds, s = ds +++ r /\ component ds.
Proof.
  destruct s as [|c s]; simpl; [discriminate|].
  destruct (Js.isDigit c) eqn:Hc; [|discriminate]. intros [= <-].
  destruct (skipDigits_inv s) as [ds [H1 H2]].
  exists (String c ds). simpl. rewrite <- H1. split; [reflexivity|].
  split; [discriminate|]. simpl. now rewrite Hc.
Qed.

Lemma dotDigits1_inv (s r : string) :
  dotDigits1 s = Some r -> exists ds, s = "." +++ ds +++ r /\ component ds.
Proof.
  destruct s as [|c s]; simpl; [discriminate|].
  destruct (Ascii.eqb c ".") eqn:Hc; [|discriminate].
  apply Ascii.eqb_eq in Hc. subst c. intros H.
  destruct (digits1_inv _ _ H) as [ds [-> Hds]]. now exists ds.
Qed.

Lemma atEnd_inv (s : string) : atEnd s = true -> s = "".
Proof. destruct s; [reflexivity | discriminate]. Qed.

Lemma skipDigits_append (ds r : string) :
  allDigits ds = true -> digitsStop r -> Js.skipDigits (ds +++ r) = r.
Proof.
  intros Hds Hr. induction ds as [|c ds IH]; simpl.
  - destruct r as [|x r]; [reflexivity|]. simpl in *. now rewrite Hr.
  - simpl in Hds. apply andb_prop in Hds as [Hc Hds]. rewrite Hc. now apply IH.
Qed.

Lemma digits1_append (ds r : string) :
  component ds -> digitsStop r -> Js.digits1 (ds +++ r) = Some r.
Proof.
  intros [Hne Hds] Hr. destruct ds as [|c ds]; [congruence|]. simpl in *.
  apply andb_prop in Hds as [Hc Hds]. rewrite Hc. f_equal.
  now apply skipDigits_append.
Qed.

Lemma dotDigits1_append (ds r : string) :
  component ds -> digitsStop r -> dotDigits1 ("." +++ ds +++ r) = Some r.
Proof. intros Hds Hr. simpl. now apply digits1_append. Qed.

Lemma versionRegExp_shape (v : string) :
  versionRegExp v = true
  <-> exists comps,
        v = Js.join "." comps
        /\ 2 <= List.length comps <= 4
        /\ forall c, In c comps -> component c.
Proof.
  split.
  - unfold versionRegExp.
    destruct (Js.digits1 v) as [s1|] eqn:H1; [|discriminate].
    destruct (digits1_inv _ _ H1) as [d1 [-> Hd1]].
    destruct (dotDigits1 s1) as [s2|] eqn:H2; [|discriminate].
    destruct (dotDigits1_inv _ _ H2) as [d2 [-> Hd2]].
    destruct (dotDigits1 s2) as [s3|] eqn:H3.
    + destruct (dotDigits1_inv _ _ H3) as [d3 [-> Hd3]].
      destruct (dotDigits1 s3) as [s4|] eqn:H4.
      * destruct (dotDigits1_inv _ _ H4) as [d4 [-> Hd4]].
        intros H. apply atEnd_inv in H. subst s4.
        exists [d1; d2; d3; d4]. split; [|split; [simpl; lia|]].
        -- unfold Js.join. simpl. now rewrite append_empty_r.
        -- intros c [<-|[<-|[<-|[<-|[]]]]]; assumption.
      * intros H. apply atEnd_inv in H. subst s3.
        exists [d1; d2; d3]. split; [|split; [simpl; lia|]].
        -- unfold Js.join. simpl. now rewrite append_empty_r.
        -- intros c [<-|[<-|[<-|[]]]]; assumption.
    + intros H. apply atEnd_inv in H. subst s2.
      exists [d1; d2]. split; [|split; [simpl; lia|]].
      * unfold Js.join. simpl. now rewrite append_empty_r.
      * intros c [<-|[<-|[]]]; assumption.
  - intros [comps [-> [Hlen Hc]]].
    assert (Hlast : forall d, component d -> Js.digits1 d = Some "").
    { intros d Hd. rewrite <- (append_empty_r d) at 1.
      now apply digits1_append. }
    destruct comps as [|d1 [|d2 [|d3 [|d4 [|d5 comps]]]]]; simpl in Hlen; try lia.
    + unfold versionRegExp, Js.join. cbn [String.concat].
      rewrite (digits1_append d1 ("." +++ d2)) by (auto with datatypes; reflexivity).
      cbn [dotDigits1 String.append]. change (Ascii.eqb "." ".") with true. cbv iota.
      rewrite Hlast by auto with datatypes. reflexivity.
    + unfold versionRegExp, Js.join. cbn [String.concat].
      rewrite (digits1_append d1 ("." +++ d2 +++ "." +++ d3))
        by (auto with datatypes; reflexivity).
      rewrite (dotDigits1_append d2 ("." +++ d3)) by (auto with datatypes; reflexivity).
      cbn [dotDigits1 String.append]. change (Ascii.eqb "." ".") with true. cbv iota.
      rewrite Hlast by auto with datatypes. reflexivity.
    + unfold versionRegExp, Js.join. cbn [String.concat].
      rewrite (digits1_append d1 ("." +++ d2 +++ "." +++ d3 +++ "." +++ d4))
        by (auto with datatypes; reflexivity).
      rewrite (dotDigits1_append d2 ("." +++ d3 +++ "." +++ d4))
        by (auto with datatypes; reflexivity).
      rewrite (dotDigits1_append d3 ("." +++ d4)) by (auto with datatypes; reflexivity).
      cbn [dotDigits1 String.append]. change (Ascii.eqb "." ".") with true. cbv iota.
      rewrite Hlast by auto with datatypes. reflexivity.
Qed.

Lemma tagMatch_tagAt (d m : string) : tagAt d = Some m -> tagMatch d = Some m.
Proof.
  destruct d as [|c d]; [discriminate|]. intros H. simpl tagMatch. now rewrite H.
Qed.

Lemma decorationTag_git (t ws v version : string) :
  Js.litCI "tag:" t = Some "" ->
  ws <> "" -> Js.skipSpaces ws = "" ->
  v = "" \/ Js.litCI "v" v = Some "" ->
  versionRegExp version = true ->
  decorationTag (t +++ ws +++ v +++ version) = Some version.
Proof.
  intros Ht Hne Hws Hv Hver.
  assert (Hm : tagAt (t +++ ws +++ v +++ version) = Some version).
  { unfold tagAt. rewrite (litCI_append _ _ _ Ht).
    destruct ws as [|c ws]; [congruence|]. simpl in Hws |- *.
    destruct (Js.isSpace c); [|discriminate].
    rewrite (skipSpaces_append _ _ Hws).
    destruct (versionRegExp_digit _ Hver) as [x [v' [-> Hx]]].
    destruct Hv as [->|Hv].
    - simpl. rewrite (digit_not_space x Hx), (digit_not_v x Hx).
      f_equal. now apply versionRegExp_oneLine.
    - destruct v as [|y v]; [discriminate|]. cbn [Js.litCI] in Hv.
      destruct (Ascii.eqb (Js.canon "v") (Js.canon y)) eqn:Hy; [|discriminate].
      injection Hv as ->.
      destruct (canon_v y Hy) as [Hy1 Hy2]. simpl.
      rewrite Hy2, Hy1. f_equal. now apply versionRegExp_oneLine. }
  unfold decorationTag. rewrite (tagMatch_tagAt _ _ Hm). now rewrite Hver.
Qed.

Lemma tagStep_none (d : string) : tagStep None d = decorationTag d.
Proof.
  unfold tagStep, decorationTag. destruct (tagMatch d) as [m|]; [|reflexivity].
  simpl. now destruct (versionRegExp m).
Qed.

Lemma tagStep_some (v d : string) :
  versionRegExp v = true -> tagStep (Some v) d = Some v.
Proof.
  intros Hv. unfold tagStep. rewrite (versionRegExp_truthy v Hv).
  now destruct (tagMatch d).
Qed.

Lemma fold_tagStep_some (ds : list string) (v : string) :
  versionRegExp v = true -> fold_left tagStep ds (Some v) = Some v.
Proof.
  intros Hv. induction ds as [|d ds IH]; simpl; [reflexivity|].
  now rewrite tagStep_some.
Qed.

Lemma fold_tagStep_none (ds : list string) :
  (forall x, In x ds -> decorationTag x = None) -> fold_left tagStep ds None = None.
Proof.
  induction ds as [|d ds IH]; simpl; intros H; [reflexivity|].
  rewrite tagStep_none, (H d) by now left. apply IH. intros x Hx. apply H. now right.
Qed.

Lemma decorationTag_version (d v : string) :
  decorationTag d = Some v -> versionRegExp v = true.
Proof.
  unfold decorationTag. destruct (tagMatch d) as [m|]; [|discriminate].
  destruct (versionRegExp m) eqn:Hm; [|discriminate]. now intros [= <-].
Qed.

(** C5 (amended): [getTagVersion] returns the version of the first
    decoration, in the order of [refNames], that yields one; later ones are
    ignored; when none yields a version there is no tag.  A decoration yields
    the capture of the leftmost match of [tag:], one or more white-space
    characters, an optional [v] and the rest of the line, with the case of
    letters ignored, when that capture matches [versionRegExp]; so a
    decoration made of [tag:], at least one white-space character, an
    optional [v] and a version yields that version.  The versions are the
    texts made of two to four components joined by dots, each of one digit
    or more. *)
Theorem first_tag_wins (refNames : option string) :
  (forall pre d post v,
      decorations refNames = pre ++ d :: post ->
      (forall x, In x pre -> decorationTag x = None) ->
      decorationTag d = Some v ->
      getTagVersion refNames = Some v)
  /\ ((forall x, In x (decorations refNames) -> decorationTag x = None) ->
      getTagVersion refNames = None)
  /\ (forall v, getTagVersion refNames = Some v -> versionRegExp v = true)
  /\ (forall t ws v version,
        Js.litCI "tag:" t = Some "" ->
        ws <> "" -> Js.skipSpaces ws = "" ->
        v = "" \/ Js.litCI "v" v = Some "" ->
        versionRegExp version = true ->
        decorationTag (t +++ ws +++ v +++ version) = Some version)
  /\ (forall version,
        versionRegExp version = true
        <-> exists comps,
              version = Js.join "." comps
              /\ 2 <= List.length comps <= 4
              /\ forall c, In c comps -> component c).
Proof.
  split; [|split; [|split; [|split]]].
  - intros pre d post v Hds Hpre Hd. unfold getTagVersion. rewrite Hds.
    rewrite fold_left_app. rewrite (fold_tagStep_none pre Hpre). simpl.
    rewrite tagStep_none, Hd. apply fold_tagStep_some.
    now apply decorationTag_version with (d := d).
  - apply fold_tagStep_none.
  - apply getTagVersion_version.
  - apply decorationTag_git.
  - apply versionRegExp_shape.
Qed.

Lemma first_tag_wins_witness :
  decorations (Some "HEAD -> master, tag: v1.1.0, tag: 1.0.9")
  = ["HEAD -> master"] ++ "tag: v1.1.0" :: ["tag: 1.0.9"]
  /\ decorationTag "tag: v1.1.0" = Some "1.1.0"
  /\ decorationTag "tag: 1.0.9" = Some "1.0.9"
  /\ getTagVersion (Some "HEAD -> master, tag: v1.1.0, tag: 1.0.9") = Some "1.1.0".
Proof.
  do 3 (split; [reflexivity|]).
  refine (proj1 (first_tag_wins (Some "HEAD -> master, tag: v1.1.0, tag: 1.0.9"))
            ["HEAD -> master"] "tag: v1.1.0" ["tag: 1.0.9"] "1.1.0" eq_refl _ eq_refl).
  intros x [<-|[]]. reflexivity.
Defined.

(** C5 as stated fails: the decoration [tag:1.0.0] matches the pattern of
    the claim, which asks for no white space after the colon, and its capture
    is a version; yet no tag is detected. *)
Lemma tag_without_space_counterexample :
  claimedTag "tag:1.0.0" "1.0.0"
  /\ decorations (Some "tag:1.0.0") = ["tag:1.0.0"]
  /\ getTagVersion (Some "tag:1.0.0") = None.
Proof.
  split; [|split; reflexivity].
  exists "", "tag:", "", "". repeat split; auto.
Qed.

(** ** The Message Resolver, line by line *)

Lemma collect_start (st : Resolver) : collect ([], st) = st.
Proof. unfold collect. simpl. rewrite app_nil_r. now destruct st. Qed.

Lemma collect_onBodyLine (acc : list string * Resolver) (line : string) :
  collect (onBodyLine acc line) = bodyLine (collect acc) line.
Proof.
  destruct acc as [f [m mr fc]]. unfold bodyLine, onBodyLine, collect. simpl.
  destruct (conflictsRe (Js.trim line)); simpl.
  - now rewrite app_nil_r.
  - destruct fc; simpl; [now rewrite app_nil_r|].
    destruct (mergeBranchRe (Js.trim line)); simpl; [now rewrite app_nil_r|].
    destruct (seeMergeRequestRe (Js.trim line)); simpl; [now rewrite app_nil_r|].
    destruct (Nat.ltb 0 (String.length (Js.trim line))); simpl;
      [now rewrite app_assoc | now rewrite app_nil_r].
Qed.

Lemma collect_fold (lines : list string) :
  forall acc,
    collect (fold_left onBodyLine lines acc) = fold_left bodyLine lines (collect acc).
Proof.
  induction lines as [|x lines IH]; intros acc; simpl; [reflexivity|].
  now rewrite IH, collect_onBodyLine.
Qed.

Lemma onBody_lines (st : Resolver) (data : string) :
  onBody st data = fold_left bodyLine (Js.splitLines data) st.
Proof.
  unfold onBody. rewrite <- (collect_start st) at 2. rewrite <- collect_fold.
  now destruct (fold_left onBodyLine (Js.splitLines data) ([], st)).
Qed.

Lemma fold_onBody (chunks : list string) :
  forall st, fold_left onBody chunks st = fold_left bodyLine (linesOf chunks) st.
Proof.
  induction chunks as [|d chunks IH]; intros st; simpl; [reflexivity|].
  unfold linesOf. simpl. now rewrite fold_left_app, IH, onBody_lines.
Qed.

Lemma bodyLine_conflict (st : Resolver) (line : string) :
  foundConflict st = true \/ conflictsRe (Js.trim line) = true ->
  bodyLine st line = conflictFound st.
Proof.
  destruct st as [m mr fc]. simpl. intros H.
  unfold bodyLine, onBodyLine, conflictFound.
  destruct (conflictsRe (Js.trim line)); simpl; [now rewrite app_nil_r|].
  destruct H as [->|H]; [|discriminate]. simpl. now rewrite app_nil_r.
Qed.

Lemma fold_after_conflict (lines : list string) (st : Resolver) :
  foundConflict st = true -> fold_left bodyLine lines st = st.
Proof.
  intros H. induction lines as [|x lines IH]; simpl; [reflexivity|].
  rewrite bodyLine_conflict by now left.
  replace (conflictFound st) with st; [assumption|].
  unfold conflictFound. destruct st. simpl in *. now subst.
Qed.

Lemma bodyLine_other (st : Resolver) (line : string) :
  foundConflict st = false ->
  conflictsRe (Js.trim line) = false ->
  bodyLine st line
  = if mergeBranchRe (Js.trim line) then st
    else if seeMergeRequestRe (Js.trim line) then mergeRequestFound st
    else if Nat.ltb 0 (String.length (Js.trim line))
         then {| message := message st ++ [Js.trim line];
                 isMergeRequest := isMergeRequest st;
                 foundConflict := foundConflict st |}
         else st.
Proof.
  destruct st as [m mr fc]. simpl. intros -> Hc.
  unfold bodyLine, onBodyLine, mergeRequestFound. rewrite Hc. simpl.
  destruct (mergeBranchRe (Js.trim line)); [simpl; now rewrite app_nil_r|].
  destruct (seeMergeRequestRe (Js.trim line)); [simpl; now rewrite app_nil_r|].
  destruct (Nat.ltb 0 (String.length (Js.trim line))); simpl; [reflexivity|].
  now rewrite app_nil_r.
Qed.

(** The flag [isMergeRequest] has no part in what the other two become. *)
Lemma bodyLine_mergeRequestFound (st : Resolver) (line : string) :
  bodyLine (mergeRequestFound st) line = mergeRequestFound (bodyLine st line).
Proof.
  destruct (foundConflict st) eqn:Hf.
  - rewrite !bodyLine_conflict by now left. reflexivity.
  - destruct (conflictsRe (Js.trim line)) eqn:Hc.
    + rewrite !bodyLine_conflict by now right. reflexivity.
    + rewrite !bodyLine_other by assumption.
      destruct (mergeBranchRe (Js.trim line)); [reflexivity|].
      destruct (seeMergeRequestRe (Js.trim line)); [reflexivity|].
      now destruct (Nat.ltb 0 (String.length (Js.trim line))).
Qed.

Lemma fold_mergeRequestFound (lines : list string) :
  forall st,
    fold_left bodyLine lines (mergeRequestFound st)
    = mergeRequestFound (fold_left bodyLine lines st).
Proof.
  induction lines as [|x lines IH]; intros st; simpl; [reflexivity|].
  now rewrite bodyLine_mergeRequestFound, IH.
Qed.

Lemma fold_no_conflict (lines : list string) :
  forall st,
    foundConflict st = false ->
    (forall l, In l lines -> conflictsRe (Js.trim l) = false) ->
    foundConflict (fold_left bodyLine lines st) = false.
Proof.
  induction lines as [|x lines IH]; intros st Hf Hl; simpl; [assumption|].
  apply IH; [|intros l H; apply Hl; now right].
  rewrite bodyLine_other by (auto; apply Hl; now left).
  destruct (mergeBranchRe (Js.trim x)); [assumption|].
  destruct (seeMergeRequestRe (Js.trim x)); [assumption|].
  now destruct (Nat.ltb 0 (String.length (Js.trim x))).
Qed.

(** ** Trimming and the patterns *)

Lemma trimEnd_cons (c : ascii) (s : string) :
  Js.isSpace c = false -> Js.trimEnd (String c s) = String c (Js.trimEnd s).
Proof. intros H. simpl. rewrite H. now destruct (Js.trimEnd s). Qed.

Lemma skipSpaces_trimEnd (s : string) :
  Js.skipSpaces (Js.trimEnd s) = Js.trimEnd (Js.skipSpaces s).
Proof.
  induction s as [|c s IH]; [reflexivity|].
  destruct (Js.isSpace c) eqn:Hc.
  - simpl. rewrite Hc, <- IH. destruct (Js.trimEnd s) as [|c' t]; [reflexivity|].
    simpl. now rewrite Hc.
  - rewrite trimEnd_cons by assumption. simpl. rewrite Hc.
    now rewrite trimEnd_cons by assumption.
Qed.

Lemma canon_space (a c : ascii) :
  Ascii.eqb (Js.canon a) (Js.canon c) = true ->
  Js.isSpace (Js.canon a) = false -> Js.isSpace c = false.
Proof.
  intros He Ha. apply Ascii.eqb_eq in He.
  destruct (Js.isSpace c) eqn:Hc; [|reflexivity].
  rewrite (space_canon c Hc) in He. congruence.
Qed.

Lemma litCI_trimEnd (p : string) :
  forall s r,
    Js.litCI p s = Some r -> noSpaces p = true ->
    Js.litCI p (Js.trimEnd s) = Some (Js.trimEnd r).
Proof.
  induction p as [|a p IH]; intros s r; simpl.
  - now intros [= ->].
  - destruct s as [|c s]; [discriminate|].
    destruct (Ascii.eqb (Js.canon a) (Js.canon c)) eqn:He; [|discriminate].
    intros Hr Hp. apply andb_prop in Hp as [Ha Hp]. apply negb_true_iff in Ha.
    rewrite trimEnd_cons by (eapply canon_space; eassumption).
    rewrite He. now apply IH.
Qed.

Lemma litCI_skipSpaces (a : ascii) (p s r : string) :
  Js.litCI (String a p) s = Some r -> Js.isSpace (Js.canon a) = false ->
  Js.skipSpaces s = s.
Proof.
  destruct s as [|c s]; [reflexivity|]. cbn [Js.litCI].
  destruct (Ascii.eqb (Js.canon a) (Js.canon c)) eqn:He; [|discriminate].
  intros _ Ha. simpl. now rewrite (canon_space a c He Ha).
Qed.

Lemma conflictsRe_trim (line : string) :
  conflictsRe line = true -> conflictsRe (Js.trim line) = true.
Proof.
  unfold conflictsRe at 1. destruct line as [|c r]; [discriminate|].
  destruct (Ascii.eqb c "#") eqn:Hc.
  - apply Ascii.eqb_eq in Hc. subst c.
    destruct (Js.litCI "Conflicts:" (Js.skipSpaces r)) as [x|] eqn:Hg.
    + intros _. unfold Js.trim. change (Js.skipSpaces (String "#" r)) with (String "#" r).
      rewrite trimEnd_cons by reflexivity.
      unfold conflictsRe. rewrite Ascii.eqb_refl, skipSpaces_trimEnd.
      now rewrite (litCI_trimEnd _ _ _ Hg).
    + cbn [Js.litCI]. discriminate.
  - destruct (Js.litCI "Conflicts:" (String c r)) as [x|] eqn:Hg; [|discriminate].
    intros _. unfold Js.trim.
    rewrite (litCI_skipSpaces _ _ _ _ Hg) by reflexivity.
    pose proof (litCI_trimEnd _ _ _ Hg eq_refl) as Ht.
    unfold conflictsRe. rewrite Ht.
    now destruct (match Js.trimEnd (String c r) with
                  | "" => None
                  | String c0 r0 =>
                      if Ascii.eqb c0 "#" then Js.litCI "Conflicts:" (Js.skipSpaces r0)
                      else None
                  end).
Qed.

Lemma see_first_letter (c : ascii) :
  Ascii.eqb (Js.canon "S") (Js.canon c) = true ->
  Ascii.eqb c "#" = false
  /\ Ascii.eqb (Js.canon "C") (Js.canon c) = false
  /\ Ascii.eqb (Js.canon "M") (Js.canon c) = false.
Proof. each_ascii c; vm_compute; intuition congruence. Qed.

Lemma seeMergeRequestRe_only (line : string) :
  seeMergeRequestRe line = true ->
  conflictsRe line = false /\ mergeBranchRe line = false.
Proof.
  unfold seeMergeRequestRe, conflictsRe, mergeBranchRe.
  destruct line as [|c s]; [discriminate|]. cbn [Js.litCI].
  destruct (Ascii.eqb (Js.canon "S") (Js.canon c)) eqn:Hs; [|discriminate].
  destruct (see_first_letter c Hs) as [H1 [H2 H3]]. rewrite H1, H2, H3.
  now split.
Qed.

Lemma getMessageForCommit_lines (short : bool) (chunks : list string) (code : option nat) :
  getMessageForCommit short (chunks, code)
  = let st := fold_left bodyLine (linesOf chunks) startResolver in
    if Js.truthyCode code
    then Err ("Unable to get commit message. Git errored with code #"
              +++ Js.showCode code)
    else Ok (if short && Nat.ltb 0 (List.length (message st))
             then hd "" (message st)
             else Js.join LF (message st),
             isMergeRequest st).
Proof. unfold getMessageForCommit. simpl. now rewrite fold_onBody. Qed.

(** X20: when one of the lines the listener sees matches the pattern of the
    conflict section, as it is or once trimmed, the text and the flag of the
    message are those of the body cut just before that line: the line and
    every line after it are left out whatever they hold, and the lines before
    it are treated as if the body ended there. *)
Theorem conflicts_cut_message
    (short : bool) (chunks chunks' : list string) (code : option nat)
    (pre post : list string) (ln : string) :
  linesOf chunks = pre ++ ln :: post ->
  conflictsRe ln = true \/ conflictsRe (Js.trim ln) = true ->
  linesOf chunks' = pre ->
  getMessageForCommit short (chunks, code) = getMessageForCommit short (chunks', code).
Proof.
  intros Hlines Hc Hpre.
  assert (Hc' : conflictsRe (Js.trim ln) = true).
  { destruct Hc as [Hc|Hc]; [now apply conflictsRe_trim | assumption]. }
  rewrite !getMessageForCommit_lines, Hlines, Hpre. cbv zeta.
  rewrite fold_left_app. simpl.
  rewrite bodyLine_conflict by now right.
  now rewrite fold_after_conflict by reflexivity.
Qed.

Lemma conflicts_cut_message_witness :
  let chunks := ["Add parser" +++ LF +++ "Conflicts:" +++ LF +++ "  lib/parser.js" +++ LF
                 +++ "See merge request !7"] in
  linesOf chunks = ["Add parser"] ++ "Conflicts:" :: ["  lib/parser.js"; "See merge request !7"]
  /\ conflictsRe "Conflicts:" = true
  /\ getMessageForCommit false (chunks, Some 0)
     = getMessageForCommit false (["Add parser"], Some 0).
Proof.
  intros chunks. do 2 (split; [reflexivity|]).
  exact (conflicts_cut_message false chunks ["Add parser"] (Some 0)
           ["Add parser"] ["  lib/parser.js"; "See merge request !7"] "Conflicts:"
           eq_refl (or_introl eq_refl) eq_refl).
Defined.

(** C7: the listener of [data] splits each chunk on its own (line 168) and
    keeps nothing of a chunk for the next one, so a line of the body that the
    end of a chunk cuts is read as two lines.  The same body, whole and cut
    inside its line [Conflicts:]: whole, the text stops before that line;
    cut, neither part matches the pattern, and both parts and the line after
    them are in the text. *)
Theorem conflicts_line_cut_by_chunk_end :
  let whole := ["Add parser" +++ LF +++ "Conflicts:" +++ LF +++ "secret.js"] in
  let cut := ["Add parser" +++ LF +++ "Conf"; "licts:" +++ LF +++ "secret.js"] in
  String.concat "" cut = String.concat "" whole
  /\ linesOf whole = ["Add parser"; "Conflicts:"; "secret.js"]
  /\ linesOf cut = ["Add parser"; "Conf"; "licts:"; "secret.js"]
  /\ getMessageForCommit false (whole, Some 0) = Ok ("Add parser", false)
  /\ getMessageForCommit false (cut, Some 0)
     = Ok ("Add parser" +++ LF +++ "Conf" +++ LF +++ "licts:" +++ LF +++ "secret.js", false).
Proof. intros whole cut. repeat split; reflexivity. Qed.

Lemma fold_no_merge_request (lines : list string) :
  forall st,
    isMergeRequest st = false ->
    (forall pre ln post,
        lines = pre ++ ln :: post ->
        seeMergeRequestRe (Js.trim ln) = true ->
        foundConflict st = true
        \/ exists l, In l pre /\ conflictsRe (Js.trim l) = true) ->
    isMergeRequest (fold_left bodyLine lines st) = false.
Proof.
  induction lines as [|x lines IH]; intros st Hmr H; simpl; [assumption|].
  destruct (foundConflict st) eqn:Hf.
  - rewrite bodyLine_conflict by now left.
    rewrite fold_after_conflict by reflexivity. assumption.
  - destruct (conflictsRe (Js.trim x)) eqn:Hc.
    + rewrite bodyLine_conflict by now right.
      rewrite fold_after_conflict by reflexivity. assumption.
    + assert (Hsee : seeMergeRequestRe (Js.trim x) = false).
      { destruct (seeMergeRequestRe (Js.trim x)) eqn:Hs; [|reflexivity].
        destruct (H [] x lines eq_refl Hs) as [H'|[l [[] _]]]. discriminate. }
      apply IH.
      * rewrite bodyLine_other, Hsee by assumption.
        destruct (mergeBranchRe (Js.trim x)); [assumption|].
        now destruct (Nat.ltb 0 (String.length (Js.trim x))).
      * intros pre ln post Hl Hs. right.
        destruct (H (x :: pre) ln post) as [H'|[l [[<-|Hl'] Hl'']]];
          [now rewrite Hl | assumption | congruence | congruence | now exists l].
Qed.

(** X21: one of the lines the listener sees that, once trimmed, matches the
    pattern of the merge request line, and that no conflict section
    precedes, makes the resolver hand over [isMergeRequest = true], with the
    text the body would give without that line.  A body in which every such
    line comes after the start of a conflict section, and so a body without
    such a line, gives [isMergeRequest = false]. *)
Theorem merge_request_line (short : bool) (chunks : list string) (code : option nat) :
  Js.truthyCode code = false ->
  (forall pre ln post chunks',
      linesOf chunks = pre ++ ln :: post ->
      seeMergeRequestRe (Js.trim ln) = true ->
      (forall l, In l pre -> conflictsRe (Js.trim l) = false) ->
      linesOf chunks' = pre ++ post ->
      exists text mr,
        getMessageForCommit short (chunks, code) = Ok (text, true)
        /\ getMessageForCommit short (chunks', code) = Ok (text, mr))
  /\ ((forall pre ln post,
         linesOf chunks = pre ++ ln :: post ->
         seeMergeRequestRe (Js.trim ln) = true ->
         exists l, In l pre /\ conflictsRe (Js.trim l) = true) ->
      exists text, getMessageForCommit short (chunks, code) = Ok (text, false)).
Proof.
  intros Hcode. split.
  - intros pre ln post chunks' Hlines Hsee Hpre Hlines'.
    rewrite !getMessageForCommit_lines, Hcode, Hlines, Hlines'. cbv zeta.
    rewrite !fold_left_app. simpl.
    set (s := fold_left bodyLine pre startResolver).
    assert (Hs : foundConflict s = false) by (apply fold_no_conflict; auto).
    destruct (seeMergeRequestRe_only _ Hsee) as [Hc Hm].
    rewrite (bodyLine_other s ln Hs Hc), Hm, Hsee.
    rewrite fold_mergeRequestFound. simpl.
    eexists. eexists. split; reflexivity.
  - intros H. rewrite getMessageForCommit_lines, Hcode. cbv zeta.
    rewrite fold_no_merge_request; [eexists; reflexivity | reflexivity |].
    intros pre ln post Hl Hs. right. now apply (H pre ln post).
Qed.

Lemma merge_request_line_witness :
  let chunks := ["Merge branch 'parser' into 'master'" +++ LF +++ LF +++ "Add parser"
                 +++ LF +++ LF +++ "See merge request !42" +++ LF] in
  linesOf chunks
  = ["Merge branch 'parser' into 'master'"; ""; "Add parser"; ""]
    ++ "See merge request !42" :: [""]
  /\ exists mr,
       getMessageForCommit true (chunks, Some 0) = Ok ("Add parser", true)
       /\ getMessageForCommit true
            (["Merge branch 'parser' into 'master'" +++ LF +++ LF +++ "Add parser"
              +++ LF +++ LF], Some 0)
          = Ok ("Add parser", mr).
Proof.
  intros chunks. split; [reflexivity|].
  assert (Hpre : forall l,
             In l ["Merge branch 'parser' into 'master'"; ""; "Add parser"; ""] ->
             conflictsRe (Js.trim l) = false).
  { intros l [<-|[<-|[<-|[<-|[]]]]]; reflexivity. }
  destruct (proj1 (merge_request_line true chunks (Some 0) eq_refl)
              ["Merge branch 'parser' into 'master'"; ""; "Add parser"; ""]
              "See merge request !42" [""]
              ["Merge branch 'parser' into 'master'" +++ LF +++ LF +++ "Add parser"
               +++ LF +++ LF]
              eq_refl eq_refl Hpre eq_refl) as [text [mr [H1 H2]]].
  assert (Ht : text = "Add parser") by (vm_compute in H1; now injection H1).
  subst text. exists mr. now split.
Defined.

(** C8: the listener of [data] splits each chunk on its own (line 168) and
    keeps nothing of a chunk for the next one, so a line of the body that the
    end of a chunk cuts is read as two lines.  The same body, whole and cut
    inside its line [See merge request !42]: whole, the resolver hands over
    [isMergeRequest = true] and a text without that line; cut, neither part
    matches the pattern, the flag is [false] and both parts are in the
    text. *)
Theorem merge_request_line_cut_by_chunk_end :
  let whole := ["Add parser" +++ LF +++ "See merge request !42" +++ LF] in
  let cut := ["Add parser" +++ LF +++ "See merge re"; "quest !42" +++ LF] in
  String.concat "" cut = String.concat "" whole
  /\ linesOf whole = ["Add parser"; "See merge request !42"; ""]
  /\ linesOf cut = ["Add parser"; "See merge re"; "quest !42"; ""]
  /\ getMessageForCommit false (whole, Some 0) = Ok ("Add parser", true)
  /\ getMessageForCommit false (cut, Some 0)
     = Ok ("Add parser" +++ LF +++ "See merge re" +++ LF +++ "quest !42", false)
  /\ getMessageForCommit true (whole, Some 0) = Ok ("Add parser", true)
  /\ getMessageForCommit true (cut, Some 0) = Ok ("Add parser", false).
Proof. intros whole cut. repeat split; reflexivity. Qed.

(** ** Tasks run side by side *)

Lemma firstError_In {A : Type} (tasks : list (nat * Result A)) (time : nat) (e : string) :
  firstError tasks = Some (time, e) -> In (time, Err e) tasks.
Proof.
  revert time e. induction tasks as [|[t [a|e']] tasks IH]; simpl; intros time e;
    [discriminate | intros H; right; now apply IH |].
  destruct (firstError tasks) as [[t'' e'']|].
  - destruct (Nat.ltb t'' t).
    + intros [= <- <-]. right. now apply IH.
    + intros [= <- <-]. now left.
  - intros [= <- <-]. now left.
Qed.

Lemma firstError_least {A : Type} (tasks : list (nat * Result A)) (time : nat) (e : string) :
  firstError tasks = Some (time, e) ->
  forall time' e', In (time', Err e') tasks -> time <= time'.
Proof.
  revert time e. induction tasks as [|[t [a|e0]] tasks IH]; simpl; intros time e;
    [discriminate | |].
  - intros H time' e' [[= ]|Hin]. now apply (IH _ _ H time' e').
  - destruct (firstError tasks) as [[t1 e1]|] eqn:Hf.
    + destruct (Nat.ltb t1 t) eqn:Hlt.
      * intros [= <- <-] time' e' [[= <- <-]|Hin].
        -- apply Nat.ltb_lt in Hlt. lia.
        -- now apply (IH _ _ eq_refl time' e').
      * intros [= <- <-] time' e' [[= <- <-]|Hin]; [lia|].
        apply Nat.ltb_ge in Hlt. pose proof (IH _ _ eq_refl time' e' Hin). lia.
    + intros [= <- <-] time' e' [[= <- <-]|Hin]; [lia|].
      exfalso. clear IH. induction tasks as [|[t2 [a2|e2]] tasks IH2]; simpl in *;
        [contradiction | |].
      * destruct Hin as [[= ]|Hin]. now apply IH2.
      * now destruct (firstError tasks) as [[t3 e3]|]; [destruct (Nat.ltb t3 t2)|].
Qed.

Lemma firstError_none {A : Type} (tasks : list (nat * Result A)) :
  firstError tasks = None -> map snd tasks = map Ok (values tasks).
Proof.
  induction tasks as [|[t [a|e]] tasks IH]; simpl; [reflexivity | |].
  - intros H. now rewrite IH.
  - now destruct (firstError tasks) as [[t' e']|]; [destruct (Nat.ltb t' t)|].
Qed.

Lemma firstError_all_ok {A : Type} (tasks : list (nat * Result A)) (l : list A) :
  map snd tasks = map Ok l -> firstError tasks = None /\ values tasks = l.
Proof.
  revert l. induction tasks as [|[t r] tasks IH]; intros [|a l]; simpl;
    try discriminate; [now split|].
  intros [= -> H]. destruct (IH l H) as [H1 H2]. split; [assumption | now rewrite H2].
Qed.

(** [parallelLimit] succeeds exactly when every task does, with the values
    in the order of the tasks. *)
Lemma parallelLimit_ok_iff {A : Type} (tasks : list (nat * Result A)) (l : list A) :
  parallelLimit tasks = Ok l <-> map snd tasks = map Ok l.
Proof.
  unfold parallelLimit. split.
  - destruct (firstError tasks) as [[t e]|] eqn:H; [discriminate|].
    intros [= <-]. now apply firstError_none.
  - intros H. apply firstError_all_ok in H as [-> ->]. reflexivity.
Qed.

(** The error [parallelLimit] passes on is the one of a failing task that no
    failing task precedes in time. *)
Lemma parallelLimit_err_inv {A : Type} (tasks : list (nat * Result A)) (e : string) :
  parallelLimit tasks = Err e ->
  In (parallelTime tasks, Err e) tasks
  /\ forall time' e', In (time', Err e') tasks -> parallelTime tasks <= time'.
Proof.
  unfold parallelLimit, parallelTime.
  destruct (firstError tasks) as [[t e0]|] eqn:H; [|discriminate].
  intros [= <-]. split; [now apply firstError_In | now apply firstError_least with (e := e0)].
Qed.

Lemma parallelLimit_err {A : Type} (tasks : list (nat * Result A)) (time : nat) (e : string) :
  In (time, Err e) tasks -> exists e', parallelLimit tasks = Err e'.
Proof.
  intros H. destruct (parallelLimit tasks) as [l|e'] eqn:Hp; [|now exists e'].
  exfalso. apply parallelLimit_ok_iff in Hp.
  apply (in_map snd) in H. rewrite Hp in H. simpl in H.
  apply in_map_iff in H as [x [Hx _]]. discriminate.
Qed.

Lemma map_snd_tasks {A B : Type} (time : A -> nat) (f : A -> Result B) (l : list A) :
  map snd (map (fun x => (time x, f x)) l) = map f l.
Proof. rewrite map_map. reflexivity. Qed.

Lemma parallelLimit_all_ok {A B : Type} (time : A -> nat) (f : A -> Result B) (g : A -> B)
    (l : list A) :
  (forall x, In x l -> f x = Ok (g x)) ->
  parallelLimit (map (fun x => (time x, f x)) l) = Ok (map g l).
Proof.
  intros H. apply parallelLimit_ok_iff. rewrite map_snd_tasks, map_map.
  apply map_ext_in. exact H.
Qed.

(** ** Messages that are dropped *)

Section Messages.

Variable removeMd : string -> string.
Variable opts : Options.
Variable w : World.

Lemma messageTask_plain (hash text : string) :
  allCommits opts = false ->
  getMessageForCommit (shortCommitMessage opts) (gitShow w hash) = Ok (text, false) ->
  messageTask removeMd opts w hash = Ok "".
Proof. intros Ha H. unfold messageTask. rewrite H. simpl. now rewrite Ha. Qed.

Lemma filterEmptyMessages_In (messages : list string) (m : string) :
  In m (filterEmptyMessages messages) <-> In m messages /\ m <> "".
Proof.
  unfold filterEmptyMessages. rewrite filter_In.
  destruct m; simpl; intuition congruence.
Qed.

Lemma filterEmptyMessages_empty (messages : list string) :
  (forall m, In m messages -> m = "") -> filterEmptyMessages messages = [].
Proof.
  induction messages as [|m messages IH]; simpl; intros H; [reflexivity|].
  rewrite (H m) by now left. simpl. apply IH. intros x Hx. apply H. now right.
Qed.

Lemma filterEmptyVersions_In (vs : list VM.t) (v : VM.t) :
  In v (filterEmptyVersions vs) <-> In v vs /\ VM.messages v <> [].
Proof.
  unfold filterEmptyVersions. rewrite filter_In. unfold Nat.ltb.
  destruct (VM.messages v); simpl; intuition congruence.
Qed.

Lemma filterEmptyVersions_skip (vs1 vs2 : list VM.t) (v : VM.t) :
  VM.messages v = [] ->
  filterEmptyVersions (vs1 ++ v :: vs2) = filterEmptyVersions (vs1 ++ vs2).
Proof.
  intros H. unfold filterEmptyVersions. rewrite !filter_app. simpl. now rewrite H.
Qed.

Lemma versionTask_plain (v : VC.t) :
  allCommits opts = false ->
  (forall hash,
      In hash (VC.commits v) ->
      exists text,
        getMessageForCommit (shortCommitMessage opts) (gitShow w hash) = Ok (text, false)) ->
  versionTask removeMd opts w v = Ok {| VM.version := VC.version v; VM.messages := [] |}.
Proof.
  intros Ha H. unfold versionTask, getMessagesForListOfCommits, messageTasks.
  rewrite (parallelLimit_all_ok _ _ (fun _ => "")).
  - simpl. f_equal. f_equal. apply filterEmptyMessages_empty.
    intros m Hm. apply in_map_iff in Hm as [x [Hx _]]. now symmetry.
  - intros hash Hh. destruct (H hash Hh) as [text Ht].
    now apply messageTask_plain with (text := text).
Qed.

(** C9: with "all commits" off, the message of a commit that is not marked
    [isMergeRequest] becomes the empty string; the messages of a bucket are
    the resolved ones that are not empty; the versions handed to the
    rendering are those with at least one message; and a version whose
    commits are all unmarked leaves the list handed to the rendering, and the
    rendered changelog, as they are without it. *)
Theorem empty_versions_dropped :
  (forall hash text,
      allCommits opts = false ->
      getMessageForCommit (shortCommitMessage opts) (gitShow w hash) = Ok (text, false) ->
      messageTask removeMd opts w hash = Ok "")
  /\ (forall v r,
        versionTask removeMd opts w v = Ok r ->
        VM.version r = VC.version v
        /\ exists resolved,
             getMessagesForListOfCommits removeMd opts w (VC.commits v) = Ok resolved
             /\ VM.messages r = filterEmptyMessages resolved
             /\ forall m, In m (VM.messages r) <-> In m resolved /\ m <> "")
  /\ (forall vs v, In v (filterEmptyVersions vs) <-> In v vs /\ VM.messages v <> [])
  /\ (forall vs1 v vs2,
        VM.messages v = [] ->
        filterEmptyVersions (vs1 ++ v :: vs2) = filterEmptyVersions (vs1 ++ vs2))
  /\ (forall u vs1 v vs2 ms,
        allCommits opts = false ->
        (forall hash,
            In hash (VC.commits v) ->
            exists text,
              getMessageForCommit (shortCommitMessage opts) (gitShow w hash)
              = Ok (text, false)) ->
        getMessagesForVersions removeMd opts w (vs1 ++ vs2) = Ok ms ->
        exists ms',
          getMessagesForVersions removeMd opts w (vs1 ++ v :: vs2) = Ok ms'
          /\ filterEmptyVersions ms' = filterEmptyVersions ms
          /\ generateChangelog u (filterEmptyVersions ms')
             = generateChangelog u (filterEmptyVersions ms)).
Proof.
  split; [exact messageTask_plain|]. split; [|split; [|split]].
  - intros v r. unfold versionTask.
    destruct (getMessagesForListOfCommits removeMd opts w (VC.commits v))
      as [resolved|e]; simpl; [|discriminate].
    intros [= <-]. simpl. split; [reflexivity|]. exists resolved.
    split; [reflexivity|]. split; [reflexivity|]. apply filterEmptyMessages_In.
  - exact filterEmptyVersions_In.
  - intros vs1 v vs2. apply filterEmptyVersions_skip.
  - intros u vs1 v vs2 ms Ha Hv. unfold getMessagesForVersions, versionTasks.
    rewrite !parallelLimit_ok_iff, !map_snd_tasks, map_app. intros H.
    symmetry in H. apply map_eq_app in H as [l1 [l2 [-> [H1 H2]]]].
    exists (l1 ++ {| VM.version := VC.version v; VM.messages := [] |} :: l2). split.
    + apply parallelLimit_ok_iff. rewrite map_snd_tasks, !map_app. simpl.
      now rewrite (versionTask_plain v Ha Hv), <- H1, <- H2.
    + rewrite (filterEmptyVersions_skip l1 l2) by reflexivity. now split.
Qed.

End Messages.

(** The history of three commits: the commit tagged 1.0.0, the merge of a
    merge request, and a merge, tagged 0.9.0, that is no merge request. *)
Lemma empty_versions_dropped_witness :
  let opts := {| allCommits := false; overwriteChangelog := false;
                 startVersion := None; shortCommitMessage := true |} in
  let w := {| changelogStore := Absent;
              gitLog := (["a1 p0#tag: v1.0.0" +++ LF +++ "b2 p1 p2#" +++ LF
                          +++ "c3 p3 p4#tag: v0.9.0" +++ LF], Some 0);
              gitShow := fun hash =>
                if String.eqb hash "b2"
                then (["Add parser" +++ LF +++ LF +++ "See merge request !42" +++ LF], Some 0)
                else (["Merge branch 'old'" +++ LF +++ "Tidy up" +++ LF], Some 0);
              writeFailure := None;
              closeTime := fun _ => 0;
              removeMdUndefined := [] |} in
  getVersionsWithCommits false None None (gitLog w)
  = Ok ([{| VC.version := "1.0.0"; VC.commits := ["b2"] |}]
        ++ {| VC.version := "0.9.0"; VC.commits := ["c3"] |} :: [])
  /\ (exists ms',
        getMessagesForVersions (fun s => s) opts w
          ([{| VC.version := "1.0.0"; VC.commits := ["b2"] |}]
           ++ {| VC.version := "0.9.0"; VC.commits := ["c3"] |} :: []) = Ok ms'
        /\ filterEmptyVersions ms'
           = filterEmptyVersions [{| VM.version := "1.0.0"; VM.messages := ["Add parser"] |}])
  /\ written (mergelogga (fun s => s) opts w)
     = Some ("1.0.0" +++ LF +++ "=====" +++ LF +++ " * Add parser" +++ LF +++ LF).
Proof.
  intros opts w. split; [reflexivity|]. split; [|reflexivity].
  destruct (proj2 (proj2 (proj2 (proj2 (empty_versions_dropped (fun s => s) opts w))))
              None [{| VC.version := "1.0.0"; VC.commits := ["b2"] |}]
              {| VC.version := "0.9.0"; VC.commits := ["c3"] |} []
              [{| VM.version := "1.0.0"; VM.messages := ["Add parser"] |}]
              eq_refl
              (fun hash H => ex_intro _ "Tidy up"
                 match H with
                 | or_introl e =>
                     eq_ind "c3"
                       (fun h => getMessageForCommit true (gitShow w h) = Ok ("Tidy up", false))
                       eq_refl hash e
                 | or_intror f => False_ind _ f
                 end)
              eq_refl) as [ms' [H1 [H2 _]]].
  exists ms'. now split.
Defined.

(** ** Failing child processes *)

Section Failures.

Variable removeMd : string -> string.
Variable opts : Options.
Variable w : World.

Lemma getMessageForCommit_err (short : bool) (show : list string * option nat) :
  Js.truthyCode (snd show) = true ->
  getMessageForCommit short show
  = Err ("Unable to get commit message. Git errored with code #"
         +++ Js.showCode (snd show)).
Proof. intros H. unfold getMessageForCommit. now rewrite H. Qed.

Lemma getMessageForCommit_err_inv (short : bool) (show : list string * option nat)
    (e : string) :
  getMessageForCommit short show = Err e ->
  Js.truthyCode (snd show) = true
  /\ e = "Unable to get commit message. Git errored with code #"
         +++ Js.showCode (snd show).
Proof.
  unfold getMessageForCommit.
  destruct (Js.truthyCode (snd show)); [|discriminate]. now intros [= <-].
Qed.

Lemma messageTask_err_inv (hash e : string) :
  messageTask removeMd opts w hash = Err e ->
  Js.truthyCode (snd (gitShow w hash)) = true
  /\ e = "Unable to get commit message. Git errored with code #"
         +++ Js.showCode (snd (gitShow w hash)).
Proof.
  unfold messageTask.
  destruct (getMessageForCommit (shortCommitMessage opts) (gitShow w hash))
    as [r|e'] eqn:H; simpl; [discriminate|].
  intros [= <-]. now apply getMessageForCommit_err_inv with (short := shortCommitMessage opts).
Qed.

Lemma messageTask_err (hash : string) :
  Js.truthyCode (snd (gitShow w hash)) = true ->
  messageTask removeMd opts w hash
  = Err ("Unable to get commit message. Git errored with code #"
         +++ Js.showCode (snd (gitShow w hash))).
Proof. intros H. unfold messageTask. now rewrite getMessageForCommit_err. Qed.

(** The error of a bucket is the one of a failing fetch of its commits that
    none of its failing fetches precedes in time. *)
Lemma versionTask_err_inv (v : VC.t) (e : string) :
  versionTask removeMd opts w v = Err e ->
  exists hash,
    In hash (VC.commits v)
    /\ messageTask removeMd opts w hash = Err e
    /\ parallelTime (messageTasks removeMd opts w (VC.commits v)) = closeTime w hash
    /\ forall hash',
         In hash' (VC.commits v) ->
         Js.truthyCode (snd (gitShow w hash')) = true ->
         closeTime w hash <= closeTime w hash'.
Proof.
  unfold versionTask, getMessagesForListOfCommits.
  destruct (parallelLimit (messageTasks removeMd opts w (VC.commits v)))
    as [l|e'] eqn:H; simpl; [discriminate|].
  intros [= <-]. apply parallelLimit_err_inv in H as [H Hleast].
  unfold messageTasks in H at 2. apply in_map_iff in H as [hash [[= H1 H2] H3]].
  exists hash. split; [assumption|]. split; [assumption|]. split; [now symmetry|].
  intros hash' Hin Hcode. rewrite H1.
  apply (Hleast _ ("Unable to get commit message. Git errored with code #"
                   +++ Js.showCode (snd (gitShow w hash')))).
  unfold messageTasks. apply in_map_iff. exists hash'. split; [|assumption].
  now rewrite messageTask_err.
Qed.

Lemma versionTask_err (v : VC.t) (hash : string) :
  In hash (VC.commits v) ->
  Js.truthyCode (snd (gitShow w hash)) = true ->
  exists e, versionTask removeMd opts w v = Err e.
Proof.
  intros Hin Hcode. unfold versionTask, getMessagesForListOfCommits.
  destruct (parallelLimit_err (messageTasks removeMd opts w (VC.commits v))
              (closeTime w hash)
              ("Unable to get commit message. Git errored with code #"
               +++ Js.showCode (snd (gitShow w hash)))) as [e He].
  - unfold messageTasks. apply in_map_iff. exists hash. split; [|assumption].
    now rewrite messageTask_err.
  - rewrite He. now exists e.
Qed.

(** The error of [getMessagesForVersions] is the one of a failing fetch of a
    commit of the buckets that no failing fetch of such a commit precedes in
    time. *)
Lemma getMessagesForVersions_err (versions : list VC.t) (v : VC.t) (hash : string) :
  In v versions -> In hash (VC.commits v) ->
  Js.truthyCode (snd (gitShow w hash)) = true ->
  exists v' hash',
    In v' versions /\ In hash' (VC.commits v')
    /\ Js.truthyCode (snd (gitShow w hash')) = true
    /\ (forall v'' hash'',
          In v'' versions -> In hash'' (VC.commits v'') ->
          Js.truthyCode (snd (gitShow w hash'')) = true ->
          closeTime w hash' <= closeTime w hash'')
    /\ getMessagesForVersions removeMd opts w versions
       = Err ("Unable to get commit message. Git errored with code #"
              +++ Js.showCode (snd (gitShow w hash'))).
Proof.
  intros Hv Hh Hcode. unfold getMessagesForVersions.
  destruct (versionTask_err v hash Hh Hcode) as [e He].
  destruct (parallelLimit_err (versionTasks removeMd opts w versions)
              (parallelTime (messageTasks removeMd opts w (VC.commits v))) e) as [e' He'].
  - unfold versionTasks. apply in_map_iff. exists v. split; [now rewrite He | assumption].
  - rewrite He'. apply parallelLimit_err_inv in He' as [H Hleast].
    unfold versionTasks in H at 2. apply in_map_iff in H as [v' [[= H1 H2] H3]].
    destruct (versionTask_err_inv v' e' H2) as [hash' [H4 [H5 [H6 H7]]]].
    apply messageTask_err_inv in H5 as [H5 ->].
    exists v', hash'. split; [assumption|]. split; [assumption|]. split; [assumption|].
    split; [|reflexivity].
    intros v'' hash'' Hv'' Hh'' Hcode''.
    destruct (versionTask_err v'' hash'' Hh'' Hcode'') as [e'' He''].
    destruct (versionTask_err_inv v'' e'' He'') as [h3 [_ [_ [H8 H9]]]].
    assert (Hle : parallelTime (versionTasks removeMd opts w versions)
                  <= parallelTime (messageTasks removeMd opts w (VC.commits v''))).
    { apply (Hleast _ e''). unfold versionTasks. apply in_map_iff.
      exists v''. split; [now rewrite He'' | assumption]. }
    rewrite <- H1, H6, H8 in Hle. pose proof (H9 hash'' Hh'' Hcode''). lia.
Qed.

Lemma messageTaskUndefined_err (hash : string) :
  Js.truthyCode (snd (gitShow w hash)) = true ->
  messageTaskUndefined opts w hash = if allCommits opts then removeMdUndefined w else [].
Proof. intros H. unfold messageTaskUndefined. now rewrite getMessageForCommit_err. Qed.

(** C6: when the changelog was read and [git log] closes with a nonzero
    code, or it closes well and [git show] closes with a nonzero code for a
    commit of one of the buckets, the run aborts with the first error: it
    asks for no write of the changelog, it exits with status 1, and the last
    line it prints on the error stream is [ERROR: ] followed by the message
    of that error.  The error is the one of [git log], or else the one of
    the failing [git show] that no failing [git show] of a commit of the
    buckets precedes in time.  The line is the only one on the error stream,
    but for what line 210 makes [removeMd] print before it for the undefined
    message of the failed fetch when [allCommits] is on. *)
Theorem failed_git_aborts (changelog : string) :
  readChangelogFile w = Ok changelog ->
  let resume :=
    untilVersion (getLastVersionFromChangelog (overwriteChangelog opts) changelog) in
  (Js.truthyCode (snd (gitLog w)) = true
   \/ exists versions v hash,
        getVersionsWithCommits (allCommits opts) (startVersion opts) resume (gitLog w)
        = Ok versions
        /\ In v versions /\ In hash (VC.commits v)
        /\ Js.truthyCode (snd (gitShow w hash)) = true) ->
  written (mergelogga removeMd opts w) = None
  /\ exitStatus (mergelogga removeMd opts w) = 1
  /\ exists error,
       last (errorStream (mergelogga removeMd opts w)) "" = "ERROR: " +++ error
       /\ ((Js.truthyCode (snd (gitLog w)) = true
            /\ error = "Unable to get merge commits. Git errored with code #"
                       +++ Js.showCode (snd (gitLog w))
            /\ errorStream (mergelogga removeMd opts w) = ["ERROR: " +++ error])
           \/ exists versions v hash,
                getVersionsWithCommits (allCommits opts) (startVersion opts) resume
                  (gitLog w) = Ok versions
                /\ In v versions /\ In hash (VC.commits v)
                /\ Js.truthyCode (snd (gitShow w hash)) = true
                /\ (forall v' hash',
                      In v' versions -> In hash' (VC.commits v') ->
                      Js.truthyCode (snd (gitShow w hash')) = true ->
                      closeTime w hash <= closeTime w hash')
                /\ error = "Unable to get commit message. Git errored with code #"
                           +++ Js.showCode (snd (gitShow w hash))
                /\ errorStream (mergelogga removeMd opts w)
                   = messageTaskUndefined opts w hash ++ ["ERROR: " +++ error]
                /\ messageTaskUndefined opts w hash
                   = if allCommits opts then removeMdUndefined w else []).
Proof.
  intros Hread resume H.
  destruct H as [H|[versions [v [hash [Hv [H1 [H2 H3]]]]]]].
  - assert (Hseg : getVersionsWithCommits (allCommits opts) (startVersion opts) resume
                     (gitLog w)
                   = Err ("Unable to get merge commits. Git errored with code #"
                          +++ Js.showCode (snd (gitLog w)))).
    { unfold getVersionsWithCommits, onClose. now rewrite H. }
    unfold mergelogga, undefinedMessage, segmenting, rendering.
    rewrite Hread. cbn [bind]. fold resume. rewrite Hseg. cbn [bind].
    split; [reflexivity|]. split; [reflexivity|].
    eexists. split; [reflexivity|]. left. now split.
  - destruct (getMessagesForVersions_err versions v hash H1 H2 H3)
      as [v' [hash' [H4 [H5 [H6 [H7 H8]]]]]].
    unfold mergelogga, undefinedMessage, segmenting, rendering.
    rewrite Hread. cbn [bind]. fold resume. rewrite Hv. cbn [bind]. rewrite H8.
    cbn [bind written exitStatus errorStream handleFinish fst snd].
    split; [reflexivity|]. split; [reflexivity|].
    eexists. split; [apply last_last|].
    right. exists versions, v', hash'.
    rewrite (messageTaskUndefined_err hash' H6). now repeat split.
Qed.

End Failures.

(** A history of two buckets whose fetches both fail, the one of the second
    bucket first in time, with [allCommits] on and a [remove-markdown] that
    prints its error. *)
Lemma failed_git_aborts_witness :
  let opts := {| allCommits := true; overwriteChangelog := false;
                 startVersion := None; shortCommitMessage := true |} in
  let w := {| changelogStore := Content ("1.0.0" +++ LF +++ " * first" +++ LF);
              gitLog := (["a1 p1 p2#tag: v1.2.0" +++ LF +++ "b2 p3 p4#tag: v1.1.0" +++ LF],
                         Some 0);
              gitShow := fun hash =>
                if String.eqb hash "a1" then ([], Some 128) else ([], Some 129);
              writeFailure := None;
              closeTime := fun hash => if String.eqb hash "a1" then 7 else 3;
              removeMdUndefined := ["TypeError: Cannot read property 'replace' of undefined"] |} in
  readChangelogFile w = Ok ("1.0.0" +++ LF +++ " * first" +++ LF)
  /\ written (mergelogga (fun s => s) opts w) = None
  /\ exitStatus (mergelogga (fun s => s) opts w) = 1
  /\ errorStream (mergelogga (fun s => s) opts w)
     = ["TypeError: Cannot read property 'replace' of undefined";
        "ERROR: Unable to get commit message. Git errored with code #129"].
Proof.
  intros opts w. split; [reflexivity|].
  pose proof (failed_git_aborts (fun s => s) opts w _ eq_refl
                (or_intror
                   (ex_intro _ [{| VC.version := "1.2.0"; VC.commits := ["a1"] |};
                                {| VC.version := "1.1.0"; VC.commits := ["b2"] |}]
                      (ex_intro _ {| VC.version := "1.2.0"; VC.commits := ["a1"] |}
                         (ex_intro _ "a1"
                            (conj eq_refl
                               (conj (or_introl eq_refl)
                                  (conj (or_introl eq_refl) eq_refl)))))))) as H.
  split; [exact (proj1 H)|]. split; [exact (proj1 (proj2 H))|]. reflexivity.
Defined.

(** ** Lines of the old changelog *)

Lemma length_append (a b : string) :
  String.length (a +++ b) = String.length a + String.length b.
Proof. induction a as [|c a IH]; simpl; [reflexivity | now rewrite IH]. Qed.

Lemma substring_prefix (a b : string) : substring 0 (String.length a) (a +++ b) = a.
Proof.
  induction a as [|c a IH]; simpl.
  - now destruct b.
  - now rewrite IH.
Qed.

Lemma substring_drop_LF (a : string) :
  substring 0 (String.length (a +++ LF) - 1) (a +++ LF) = a.
Proof.
  rewrite length_append. simpl String.length.
  replace (String.length a + 1 - 1) with (String.length a) by lia.
  apply substring_prefix.
Qed.

Lemma splitGo_cons (sep : string -> option nat) (s : string) (k : nat) :
  exists t ts, Js.splitGo sep s k = t :: ts.
Proof.
  revert k. induction s as [|c s IH]; intros k; simpl; [now exists "", []|].
  destruct k as [|k]; [|apply IH].
  destruct (sep (String c s)) as [[|n]|].
  - destruct (IH 0) as [t [ts ->]]. now exists (String c t), ts.
  - now exists "", (Js.splitGo sep s n).
  - destruct (IH 0) as [t [ts ->]]. now exists (String c t), ts.
Qed.

Lemma join_cons (sep x y : string) (l : list string) :
  Js.join sep (x :: y :: l) = x +++ sep +++ Js.join sep (y :: l).
Proof. reflexivity. Qed.

Lemma join_head (sep : string) (c : ascii) (t : string) (ts : list string) :
  Js.join sep (String c t :: ts) = String c (Js.join sep (t :: ts)).
Proof. destruct ts; reflexivity. Qed.

Lemma join_splitLines (s : string) :
  noCRLF s = true -> Js.join LF (Js.splitLines s) = s.
Proof.
  unfold Js.splitLines, Js.split.
  induction s as [|c s IH]; intros H; [reflexivity|].
  assert (Hs : noCRLF s = true).
  { simpl in H. destruct s; [reflexivity|]. now apply andb_prop in H. }
  specialize (IH Hs). cbn [Js.splitGo].
  destruct (splitGo_cons Js.sepNewline s 0) as [t [ts Ht]]. rewrite Ht in IH. rewrite Ht.
  unfold Js.sepNewline at 1.
  destruct (Ascii.eqb c "010") eqn:Hc.
  - apply Ascii.eqb_eq in Hc. subst c. cbv beta iota.
    rewrite Ht, join_cons, IH. reflexivity.
  - destruct (Ascii.eqb c "013") eqn:Hr; cbv beta iota.
    + destruct s as [|c' s']; [rewrite join_head; now rewrite IH|].
      simpl in H. rewrite Hr in H.
      destruct (Ascii.eqb c' "010"); [discriminate|].
      rewrite join_head. now rewrite IH.
    + rewrite join_head. now rewrite IH.
Qed.

Lemma unlines_cons (x : string) (l : list string) : unlines (x :: l) = x +++ LF +++ unlines l.
Proof.
  unfold unlines. destruct l as [|y l]; simpl.
  - reflexivity.
  - now rewrite append_assoc.
Qed.

Lemma unlines_join (x : string) (l : list string) :
  unlines (x :: l) = Js.join LF (x :: l) +++ LF.
Proof.
  revert x. induction l as [|y l IH]; intros x.
  - rewrite unlines_cons. reflexivity.
  - rewrite unlines_cons, IH, join_cons. now rewrite !append_assoc.
Qed.

Lemma unlines_then_join (hl : list string) (x : string) (l : list string) :
  unlines hl +++ Js.join LF (x :: l) = Js.join LF (hl ++ x :: l).
Proof.
  induction hl as [|h hl IH]; [reflexivity|].
  rewrite unlines_cons. simpl app.
  destruct hl as [|h' hl]; simpl app in *.
  - rewrite join_cons. now rewrite !append_assoc.
  - rewrite join_cons, <- IH. now rewrite !append_assoc.
Qed.

Lemma lastVersionStep_found (g : Resume) (x u : string) :
  untilVersion g = Some u -> versionRegExp u = true ->
  lastVersionStep g x
  = {| oldChangelogHeader := oldChangelogHeader g;
       oldChangelog := oldChangelog g +++ x +++ LF;
       untilVersion := Some u |}.
Proof.
  intros Hu Hv. unfold lastVersionStep. rewrite Hu.
  destruct u; [discriminate|]. reflexivity.
Qed.

Lemma lastVersionStep_version (g : Resume) (x : string) :
  untilVersion g = None -> versionRegExp x = true ->
  lastVersionStep g x
  = {| oldChangelogHeader := oldChangelogHeader g;
       oldChangelog := oldChangelog g +++ x +++ LF;
       untilVersion := Some x |}.
Proof.
  intros Hg Hx. unfold lastVersionStep. rewrite Hg, Hx.
  destruct x; [discriminate|]. reflexivity.
Qed.

Lemma lastVersionStep_other (g : Resume) (x : string) :
  untilVersion g = None -> versionRegExp x = false ->
  lastVersionStep g x
  = {| oldChangelogHeader := oldChangelogHeader g +++ x +++ LF;
       oldChangelog := oldChangelog g;
       untilVersion := None |}.
Proof. intros Hg Hx. unfold lastVersionStep. now rewrite Hg, Hx. Qed.

Lemma fold_lastVersionStep_found (lines : list string) :
  forall g u,
    untilVersion g = Some u -> versionRegExp u = true ->
    fold_left lastVersionStep lines g
    = {| oldChangelogHeader := oldChangelogHeader g;
         oldChangelog := oldChangelog g +++ unlines lines;
         untilVersion := Some u |}.
Proof.
  induction lines as [|x lines IH]; intros g u Hu Hv; simpl.
  - rewrite append_empty_r. destruct g. simpl in *. now subst.
  - rewrite (lastVersionStep_found g x u Hu Hv).
    rewrite (IH _ u) by (reflexivity || assumption). simpl.
    now rewrite unlines_cons, !append_assoc.
Qed.

Lemma fold_lastVersionStep (lines : list string) :
  forall g,
    untilVersion g = None ->
    (untilVersion (fold_left lastVersionStep lines g) = None)
    \/ exists header u body,
         lines = header ++ u :: body
         /\ versionRegExp u = true
         /\ (forall l, In l header -> versionRegExp l = false)
         /\ fold_left lastVersionStep lines g
            = {| oldChangelogHeader := oldChangelogHeader g +++ unlines header;
                 oldChangelog := oldChangelog g +++ unlines (u :: body);
                 untilVersion := Some u |}.
Proof.
  induction lines as [|x lines IH]; intros g Hg; simpl; [now left|].
  destruct (versionRegExp x) eqn:Hx.
  - right. exists [], x, lines. split; [reflexivity|]. split; [assumption|].
    split; [intros l []|].
    rewrite (lastVersionStep_version g x Hg Hx).
    rewrite (fold_lastVersionStep_found lines _ x) by (reflexivity || assumption).
    simpl. now rewrite append_empty_r, unlines_cons, !append_assoc.
  - rewrite (lastVersionStep_other g x Hg Hx).
    match goal with
    | |- context [fold_left lastVersionStep lines ?g'] =>
        destruct (IH g' eq_refl) as [H|[header [u [body [H1 [H2 [H3 H4]]]]]]]
    end.
    + now left.
    + right. exists (x :: header), u, body. split; [now rewrite H1|].
      split; [assumption|]. split.
      * intros l [<-|Hl]; auto.
      * rewrite H4. simpl. now rewrite !unlines_cons, !append_assoc.
Qed.

Lemma getLastVersionFromChangelog_found (old u : string) :
  untilVersion (getLastVersionFromChangelog false old) = Some u ->
  exists header body,
    Js.splitLines old = header ++ u :: body
    /\ versionRegExp u = true
    /\ (forall l, In l header -> versionRegExp l = false)
    /\ oldChangelogHeader (getLastVersionFromChangelog false old) = unlines header
    /\ oldChangelog (getLastVersionFromChangelog false old) = Js.join LF (u :: body).
Proof.
  unfold getLastVersionFromChangelog. rewrite orb_false_l.
  destruct (negb (Js.truthy (Some old))); [discriminate|]. simpl.
  destruct (fold_lastVersionStep (Js.splitLines old) noResume eq_refl)
    as [H|[header [u' [body [H1 [H2 [H3 H4]]]]]]].
  - rewrite H. discriminate.
  - rewrite H4. simpl. intros [= ->]. exists header, body.
    split; [assumption|]. split; [assumption|]. split; [assumption|].
    split; [reflexivity|].
    rewrite unlines_join. apply substring_drop_LF.
Qed.

(** ** Blocks of the new changelog *)

Lemma generateChangelog_acc (untilVersion : option string) (vs : list VM.t) :
  forall acc,
    Js.forEach
      (fun changelog v =>
         if Js.strictEq (Some (VM.version v)) untilVersion then (changelog, false)
         else (changelog
               +++ generateVersionChangelog (VM.version v) (VM.messages v) +++ LF,
               true))
      vs acc
    = acc +++ String.concat "" (renderedBlocks untilVersion vs).
Proof.
  induction vs as [|v vs IH]; intros acc.
  - simpl. now rewrite append_empty_r.
  - cbn [Js.forEach renderedBlocks].
    destruct (Js.strictEq (Some (VM.version v)) untilVersion).
    + simpl. now rewrite append_empty_r.
    + rewrite IH.
      destruct (renderedBlocks untilVersion vs) as [|b bs]; simpl;
        now rewrite ?append_empty_r, ?append_assoc.
Qed.

Lemma generateChangelog_blocks (untilVersion : option string) (vs : list VM.t) :
  generateChangelog untilVersion vs = String.concat "" (renderedBlocks untilVersion vs).
Proof. unfold generateChangelog. now rewrite generateChangelog_acc. Qed.

Lemma renderedBlocks_empty (untilVersion : option string) (vs : list VM.t) :
  generateChangelog untilVersion vs = "" <-> renderedBlocks untilVersion vs = [].
Proof.
  rewrite generateChangelog_blocks. split; [|now intros ->].
  destruct vs as [|v vs]; cbn [renderedBlocks]; [reflexivity|].
  destruct (Js.strictEq (Some (VM.version v)) untilVersion); [reflexivity|].
  intros H. exfalso.
  assert (Hb : forall b bs, String.concat "" (b :: bs) = "" -> b = "").
  { intros b [|b' bs]; simpl; [auto|]. intros H'. now apply append_eq_empty in H'. }
  apply Hb in H. apply append_eq_empty in H as [_ H]. discriminate.
Qed.

Lemma hasCR_append (a b : string) : hasCR (a +++ b) = hasCR a || hasCR b.
Proof.
  induction a as [|c a IH]; simpl; [reflexivity|]. now rewrite IH, orb_assoc.
Qed.

Lemma rendering_inv (removeMd : string -> string) (opts : Options) (w : World)
    (g : Resume) (changelog : string) :
  rendering removeMd opts w = Ok (g, changelog) ->
  exists data versions,
    readChangelogFile w = Ok data
    /\ g = getLastVersionFromChangelog (overwriteChangelog opts) data
    /\ changelog = generateChangelog (untilVersion g) versions.
Proof.
  unfold rendering.
  destruct (readChangelogFile w) as [data|e]; cbn [bind]; [|discriminate].
  destruct (getVersionsWithCommits (allCommits opts) (startVersion opts)
              (untilVersion (getLastVersionFromChangelog (overwriteChangelog opts) data))
              (gitLog w)) as [versions|e]; cbn [bind]; [|discriminate].
  destruct (getMessagesForVersions removeMd opts w versions) as [vwm|e];
    cbn [bind]; [|discriminate].
  intros [= <- <-]. now exists data, (filterEmptyVersions vwm).
Qed.

(** C4 (amended): a run whose rendered changelog is not empty, that is one
    that rendered at least one version block, asks for the write of the old
    header, the new blocks and the old body, in this order; a run that
    rendered no block asks for no write.  When the old changelog is read in
    prepend mode and holds a version line, the old header is made of the
    lines ahead of the first version line and the old body of the lines from
    that line on, with every line break written as a line feed: header and
    body together are the old content with its line breaks normalised, and
    are the old content itself when none of its line breaks is a carriage
    return and line feed. *)
Theorem changelog_written
    (removeMd : string -> string) (opts : Options) (w : World)
    (g : Resume) (changelog : string) :
  rendering removeMd opts w = Ok (g, changelog) ->
  (exists versions,
      changelog = String.concat "" (renderedBlocks (untilVersion g) versions)
      /\ (changelog = "" <-> renderedBlocks (untilVersion g) versions = []))
  /\ (changelog <> "" ->
      written (mergelogga removeMd opts w)
      = Some (oldChangelogHeader g +++ changelog +++ oldChangelog g))
  /\ (changelog = "" -> written (mergelogga removeMd opts w) = None)
  /\ (forall old u,
        changelogStore w = Content old ->
        overwriteChangelog opts = false ->
        untilVersion g = Some u ->
        exists header body,
          Js.splitLines old = header ++ u :: body
          /\ versionRegExp u = true
          /\ (forall l, In l header -> versionRegExp l = false)
          /\ oldChangelogHeader g = unlines header
          /\ oldChangelog g = Js.join LF (u :: body)
          /\ oldChangelogHeader g +++ oldChangelog g = Js.join LF (Js.splitLines old)
          /\ (noCRLF old = true -> oldChangelogHeader g +++ oldChangelog g = old)).
Proof.
  intros Hr.
  destruct (rendering_inv _ _ _ _ _ Hr) as [data [versions [Hread [Hg Hc]]]].
  split; [|split; [|split]].
  - exists versions. rewrite Hc. split.
    + apply generateChangelog_blocks.
    + apply renderedBlocks_empty.
  - intros Hne. unfold mergelogga. rewrite Hr. unfold writeChangelogFile.
    destruct changelog; [congruence|]. reflexivity.
  - intros ->. unfold mergelogga. rewrite Hr. reflexivity.
  - intros old u Hstore Hover Hu.
    assert (Hdata : data = old).
    { unfold readChangelogFile in Hread. rewrite Hstore in Hread. congruence. }
    subst data. rewrite Hover in Hg. subst g.
    destruct (getLastVersionFromChangelog_found old u Hu)
      as [header [body [H1 [H2 [H3 [H4 H5]]]]]].
    exists header, body. do 5 (split; [assumption|]).
    assert (Hj : oldChangelogHeader (getLastVersionFromChangelog false old)
                 +++ oldChangelog (getLastVersionFromChangelog false old)
                 = Js.join LF (Js.splitLines old)).
    { rewrite H4, H5, H1. apply unlines_then_join. }
    split; [assumption|]. intros Hlf. rewrite Hj. now apply join_splitLines.
Qed.

Lemma changelog_written_witness :
  let opts := {| allCommits := false; overwriteChangelog := false;
                 startVersion := None; shortCommitMessage := true |} in
  let old := "Changes" +++ LF +++ LF +++ "1.0.0" +++ LF +++ "=====" +++ LF
             +++ " * first" +++ LF in
  let w := {| changelogStore := Content old;
              gitLog := (["a1 p1 p2#tag: v1.1.0" +++ LF +++ "c3 p5#tag: v1.0.0" +++ LF],
                         None);
              gitShow := fun _ =>
                (["Add parser" +++ LF +++ LF +++ "See merge request !42" +++ LF], Some 0);
              writeFailure := None;
              closeTime := fun _ => 0;
              removeMdUndefined := [] |} in
  let blocks := "1.1.0" +++ LF +++ "=====" +++ LF +++ " * Add parser" +++ LF +++ LF in
  let g := getLastVersionFromChangelog false old in
  rendering (fun s => s) opts w = Ok (g, blocks)
  /\ written (mergelogga (fun s => s) opts w)
     = Some (oldChangelogHeader g +++ blocks +++ oldChangelog g)
  /\ oldChangelogHeader g +++ oldChangelog g = old.
Proof.
  intros opts old w blocks g.
  assert (Hr : rendering (fun s => s) opts w = Ok (g, blocks)) by reflexivity.
  split; [exact Hr|].
  pose proof (changelog_written (fun s => s) opts w g blocks Hr) as [_ [Hw [_ Hold]]].
  split.
  - apply Hw. discriminate.
  - destruct (Hold old "1.0.0" eq_refl eq_refl eq_refl)
      as [header [body [_ [_ [_ [_ [_ [_ H]]]]]]]].
    apply H. reflexivity.
Defined.

(** C4 as stated fails on an old changelog with carriage returns: the old
    body is not kept as it was.  What is written holds no carriage return,
    so it is not the new blocks put between two parts of the old content,
    however the old content is cut. *)
Lemma crlf_changelog_counterexample :
  let opts := {| allCommits := false; overwriteChangelog := false;
                 startVersion := None; shortCommitMessage := true |} in
  let CRLF := String "013" LF in
  let old := "1.0.0" +++ CRLF +++ " * first" +++ CRLF in
  let w := {| changelogStore := Content old;
              gitLog := (["a1 p1 p2#tag: v1.1.0" +++ LF +++ "c3 p5#tag: v1.0.0" +++ LF],
                         None);
              gitShow := fun _ =>
                (["Add parser" +++ LF +++ LF +++ "See merge request !42" +++ LF], Some 0);
              writeFailure := None;
              closeTime := fun _ => 0;
              removeMdUndefined := [] |} in
  let blocks := "1.1.0" +++ LF +++ "=====" +++ LF +++ " * Add parser" +++ LF +++ LF in
  (exists g, rendering (fun s => s) opts w = Ok (g, blocks)
             /\ untilVersion g = Some "1.0.0")
  /\ written (mergelogga (fun s => s) opts w)
     = Some (blocks +++ "1.0.0" +++ LF +++ " * first" +++ LF)
  /\ written (mergelogga (fun s => s) opts w) <> Some ("" +++ blocks +++ old)
  /\ ~ exists header body,
         header +++ body = old
         /\ written (mergelogga (fun s => s) opts w) = Some (header +++ blocks +++ body).
Proof.
  intros opts CRLF old w blocks.
  split; [eexists; split; reflexivity|].
  split; [reflexivity|]. split; [vm_compute; discriminate|].
  intros [header [body [Hold Hw]]].
  assert (H1 : hasCR (header +++ body) = true) by now rewrite Hold.
  assert (H2 : hasCR (header +++ blocks +++ body) = false).
  { assert (E : written (mergelogga (fun s => s) opts w)
                = Some (blocks +++ "1.0.0" +++ LF +++ " * first" +++ LF)) by reflexivity.
    rewrite E in Hw.
    change (hasCR (header +++ blocks +++ body))
      with (match Some (header +++ blocks +++ body) with
            | Some x => hasCR x
            | None => false
            end).
    now rewrite <- Hw. }
  rewrite !hasCR_append in *.
  destruct (hasCR header), (hasCR body); simpl in *; discriminate.
Qed.

(** * Further properties of the code *)

(** ** What the buckets hold *)

Section BucketCommits.

Variable allCommits : bool.
Variable untilVersion : option string.

Lemma keptOf_cons (line : string) (lines : list string) :
  keptOf allCommits (line :: lines)
  = (if keepsCommit allCommits (lineHashes line) then [hd "" (lineHashes line)] else [])
    ++ keptOf allCommits lines.
Proof. reflexivity. Qed.

Lemma commits_pushCurrent_retain (hashes : list string) (st : Segmenter) :
  Js.truthy (currentVersion st) = true ->
  flat_map VC.commits (pushCurrent (retain allCommits hashes st))
  = flat_map VC.commits (pushCurrent st)
    ++ (if keepsCommit allCommits hashes then [hd "" hashes] else []).
Proof.
  intros Ht. rewrite retain_fields. unfold pushCurrent. simpl. rewrite Ht.
  destruct (currentVersion st) as [v|]; [|discriminate].
  rewrite !flat_map_app. simpl. now rewrite !app_nil_r, app_assoc.
Qed.

Lemma commits_feed_open (lines : list string) :
  forall st,
    processKilled st = false ->
    Js.truthy (currentVersion st) = true ->
    flat_map VC.commits (pushCurrent (feed allCommits untilVersion st lines))
    = flat_map VC.commits (pushCurrent st)
      ++ keptOf allCommits (beforeResume untilVersion lines).
Proof.
  induction lines as [|x lines IH]; intros st Hk Ht.
  - rewrite feed_nil. simpl. now rewrite app_nil_r.
  - simpl beforeResume. destruct (resumeLine untilVersion x) eqn:Hr.
    + rewrite feed_resume by assumption. simpl. now rewrite app_nil_r.
    + rewrite feed_cons by assumption. rewrite keptOf_cons, app_assoc.
      destruct (lineVersion x) as [v|] eqn:Hv.
      * rewrite (onLine_tagged _ _ _ _ v) by assumption. simpl.
        pose proof (getTagVersion_version _ _ Hv) as Hver.
        rewrite IH;
          [ | now rewrite retain_killed
            | rewrite retain_fields; simpl; now apply versionRegExp_truthy ].
        f_equal. rewrite commits_pushCurrent_retain
          by (simpl; now apply versionRegExp_truthy).
        f_equal. unfold openVersion. rewrite pushCurrent_open by assumption.
        rewrite flat_map_app. simpl. now rewrite app_nil_r.
      * rewrite onLine_untagged by assumption. simpl.
        rewrite IH;
          [ | now rewrite retain_killed | now rewrite retain_fields ].
        f_equal. now apply commits_pushCurrent_retain.
Qed.

Lemma pushCurrent_no_version (st : Segmenter) :
  Js.truthy (currentVersion st) = false -> pushCurrent st = versionsWithCommits st.
Proof. intros H. unfold pushCurrent. rewrite H. now destruct (currentVersion st). Qed.

Lemma commits_feed_closed (lines : list string) :
  forall st,
    processKilled st = false ->
    Js.truthy (currentVersion st) = false ->
    flat_map VC.commits (pushCurrent (feed allCommits untilVersion st lines))
    = flat_map VC.commits (versionsWithCommits st)
      ++ keptOf allCommits (fromFirstTag (beforeResume untilVersion lines)).
Proof.
  induction lines as [|x lines IH]; intros st Hk Ht.
  - rewrite feed_nil, pushCurrent_no_version by assumption. simpl. now rewrite app_nil_r.
  - simpl beforeResume. destruct (resumeLine untilVersion x) eqn:Hr.
    + rewrite feed_resume by assumption.
      rewrite pushCurrent_kill, pushCurrent_no_version by assumption.
      simpl. now rewrite app_nil_r.
    + rewrite feed_cons by assumption. simpl fromFirstTag.
      destruct (lineVersion x) as [v|] eqn:Hv.
      * rewrite (onLine_tagged _ _ _ _ v) by assumption. simpl fst.
        pose proof (getTagVersion_version _ _ Hv) as Hver.
        rewrite commits_feed_open;
          [ | now rewrite retain_killed
            | rewrite retain_fields; simpl; now apply versionRegExp_truthy ].
        rewrite keptOf_cons, app_assoc. f_equal.
        rewrite commits_pushCurrent_retain by (simpl; now apply versionRegExp_truthy).
        f_equal. unfold openVersion. rewrite pushCurrent_open by assumption.
        rewrite pushCurrent_no_version by assumption.
        rewrite flat_map_app. simpl. now rewrite app_nil_r.
      * rewrite onLine_untagged by assumption. simpl fst.
        rewrite IH;
          [ | now rewrite retain_killed | now rewrite retain_fields ].
        now rewrite retain_fields.
Qed.

End BucketCommits.

Lemma keptOf_In (allCommits : bool) (lines : list string) (h : string) :
  In h (keptOf allCommits lines) ->
  exists line,
    In line lines /\ h = hd "" (lineHashes line)
    /\ keepsCommit allCommits (lineHashes line) = true.
Proof.
  unfold keptOf. rewrite in_flat_map. intros [line [Hl Hh]]. exists line.
  destruct (keepsCommit allCommits (lineHashes line)); [|contradiction].
  destruct Hh as [<-|[]]. auto.
Qed.

Lemma fromFirstTag_In (lines : list string) (l : string) :
  In l (fromFirstTag lines) -> In l lines.
Proof.
  induction lines as [|x lines IH]; simpl; [auto|].
  destruct (lineVersion x); [auto|]. intros H. right. now apply IH.
Qed.

Lemma beforeResume_not_resume_at (untilVersion : option string) (lines : list string)
    (l : string) :
  In l (beforeResume untilVersion lines) -> resumeLine untilVersion l = false.
Proof.
  induction lines as [|x lines IH]; simpl; intros Hl; [contradiction|].
  destruct (resumeLine untilVersion x) eqn:Hr; [contradiction|].
  destruct Hl as [<-|Hl]; auto.
Qed.

(** X1: the commits of the buckets, taken in the order of the output, are
    the retained hashes of the lines ahead of the resume line, from the
    first line on when a start version is given and from the first tagged
    line on otherwise: none is lost, repeated or moved in between.  Every
    commit of a bucket is the non-empty hash field of a line of the history
    that all-commits mode or its list of tokens retains. *)
Theorem bucket_commits
    (allCommits : bool) (startVersion untilVersion : option string)
    (chunks : list string) (code : option nat) (buckets : list VC.t) :
  getVersionsWithCommits allCommits startVersion untilVersion (chunks, code) = Ok buckets ->
  flat_map VC.commits buckets
  = keptOf allCommits
      (if Js.truthy startVersion
       then beforeResume untilVersion (linesOf chunks)
       else fromFirstTag (beforeResume untilVersion (linesOf chunks)))
  /\ (forall b h,
        In b buckets -> In h (VC.commits b) ->
        exists line,
          In line (linesOf chunks)
          /\ h = hd "" (lineHashes line) /\ h <> ""
          /\ (allCommits = true \/ 2 < List.length (lineHashes line))).
Proof.
  intros H.
  assert (Hb : buckets = segment allCommits startVersion untilVersion chunks).
  { unfold getVersionsWithCommits, onClose in H. simpl in H.
    destruct (Js.truthyCode code); [discriminate|]. now injection H as <-. }
  assert (Hc : flat_map VC.commits buckets
               = keptOf allCommits
                   (if Js.truthy startVersion
                    then beforeResume untilVersion (linesOf chunks)
                    else fromFirstTag (beforeResume untilVersion (linesOf chunks)))).
  { rewrite Hb, segment_feed.
    destruct (Js.truthy startVersion) eqn:Ht.
    - rewrite commits_feed_open by (reflexivity || assumption).
      unfold pushCurrent. simpl. rewrite Ht. now destruct startVersion.
    - now rewrite commits_feed_closed by (reflexivity || assumption). }
  split; [assumption|].
  intros b h Hin Hh.
  assert (Hk : In h (flat_map VC.commits buckets)) by (apply in_flat_map; eauto).
  rewrite Hc in Hk. apply keptOf_In in Hk as [line [Hl [-> Hkeep]]].
  exists line. apply keepsCommit_spec in Hkeep as [H1 H2].
  split; [|auto].
  destruct (Js.truthy startVersion).
  - now apply beforeResume_In in Hl.
  - apply fromFirstTag_In in Hl. now apply beforeResume_In in Hl.
Qed.

Lemma bucket_commits_witness :
  let chunks := ["f9 p1 p2#HEAD -> master" +++ LF +++ "a1 p1 p2#tag: v1.1.0" +++ LF
                 +++ "b2 p3#" +++ LF +++ "c3 p5 p6#tag: v1.0.0" +++ LF +++ "d4 p6 p7#"] in
  let buckets := [{| VC.version := "1.1.0"; VC.commits := ["a1"] |}] in
  getVersionsWithCommits false None (Some "1.0.0") (chunks, None) = Ok buckets
  /\ flat_map VC.commits buckets
     = keptOf false (fromFirstTag (beforeResume (Some "1.0.0") (linesOf chunks))).
Proof.
  intros chunks buckets.
  assert (H : getVersionsWithCommits false None (Some "1.0.0") (chunks, None) = Ok buckets)
    by reflexivity.
  split; [exact H|].
  exact (proj1 (bucket_commits false None (Some "1.0.0") chunks None buckets H)).
Defined.

(** X2: the version of every bucket is the start version or a tag detected
    on a line of the history, and is no resume version unless the start
    version is; a detected tag matches the version pattern, so no bucket has
    an empty version. *)
Theorem bucket_versions
    (allCommits : bool) (startVersion untilVersion : option string)
    (chunks : list string) (code : option nat) (buckets : list VC.t) :
  getVersionsWithCommits allCommits startVersion untilVersion (chunks, code) = Ok buckets ->
  forall b,
    In b buckets ->
    VC.version b <> ""
    /\ (startVersion = Some (VC.version b)
        \/ (versionRegExp (VC.version b) = true
            /\ untilVersion <> Some (VC.version b)
            /\ exists line,
                 In line (linesOf chunks) /\ lineVersion line = Some (VC.version b))).
Proof.
  intros H b Hb.
  assert (Hs : buckets = segment allCommits startVersion untilVersion chunks).
  { unfold getVersionsWithCommits, onClose in H. simpl in H.
    destruct (Js.truthyCode code); [discriminate|]. now injection H as <-. }
  apply (in_map VC.version) in Hb.
  rewrite Hs, segment_feed, versions_feed, versions_start in Hb by reflexivity.
  apply in_app_or in Hb as [Hb|Hb].
  - unfold startBucket in Hb. destruct startVersion as [v|]; [|contradiction].
    destruct (Js.truthy (Some v)) eqn:Ht; [|contradiction].
    destruct Hb as [->|[]]. split; [|now left].
    intros E. rewrite E in Ht. discriminate.
  - apply tagsOf_In in Hb as [line [Hl Hv]].
    pose proof (getTagVersion_version _ _ Hv) as Hver.
    split; [intros E; rewrite E in Hver; discriminate|].
    right. split; [assumption|]. split.
    + intros E. pose proof (beforeResume_not_resume_at untilVersion _ _ Hl) as Hr.
      unfold resumeLine in Hr. rewrite (lineVersion_truthy _ _ Hv), Hv, E in Hr.
      simpl in Hr. now rewrite String.eqb_refl in Hr.
    + exists line. split; [now apply beforeResume_In in Hl | assumption].
Qed.

Lemma bucket_versions_witness :
  let chunks := ["a1 p1 p2#tag: v1.1.0" +++ LF +++ "b2 p3 p4#"] in
  let b := {| VC.version := "1.1.0"; VC.commits := ["a1"; "b2"] |} in
  getVersionsWithCommits false None None (chunks, None) = Ok [b]
  /\ VC.version b <> "".
Proof.
  intros chunks b.
  assert (H : getVersionsWithCommits false None None (chunks, None) = Ok [b]) by reflexivity.
  split; [exact H|].
  exact (proj1 (bucket_versions false None None chunks None [b] H b (or_introl eq_refl))).
Defined.

(** ** Chunks cut at the end of a line *)

Lemma splitGo_step (sep : string -> option nat) (c : ascii) (s : string) :
  Js.splitGo sep (String c s) 0
  = match sep (String c s) with
    | Some (S n) => "" :: Js.splitGo sep s n
    | _ =>
        match Js.splitGo sep s 0 with
        | t :: ts => String c t :: ts
        | [] => [String c ""]
        end
    end.
Proof. reflexivity. Qed.

Lemma sepNewline_LF (s : string) : Js.sepNewline (String "010" s) = Some 1.
Proof. reflexivity. Qed.

Lemma sepNewline_other (c : ascii) (s : string) :
  Ascii.eqb c "010" = false ->
  (Ascii.eqb c "013" = false
   \/ match s with
      | String c' _ => Ascii.eqb c' "010" = false
      | "" => True
      end) ->
  Js.sepNewline (String c s) = None.
Proof.
  intros H1 H2. unfold Js.sepNewline. rewrite H1.
  destruct (Ascii.eqb c "013"); [|reflexivity].
  destruct H2 as [H2|H2]; [discriminate|].
  destruct s as [|c' s]; [reflexivity|]. now rewrite H2.
Qed.

Lemma splitGo_cut (n : nat) :
  forall a,
    String.length a <= n ->
    exists t init,
      forall b,
        Js.splitGo Js.sepNewline (a +++ String "010" b) 0
        = (t :: init) ++ Js.splitGo Js.sepNewline b 0.
Proof.
  induction n as [|n IH]; intros a Ha.
  - destruct a; [|simpl in Ha; lia]. exists "", []. reflexivity.
  - destruct a as [|c a]; [exists "", []; reflexivity|].
    simpl in Ha. assert (Ha' : String.length a <= n) by lia.
    destruct (IH a Ha') as [t [init Hcut]].
    destruct (Ascii.eqb c "010") eqn:Hlf.
    + apply Ascii.eqb_eq in Hlf. subst c. exists "", (t :: init). intros b.
      cbn [String.append]. rewrite splitGo_step, sepNewline_LF. now rewrite Hcut.
    + destruct (Ascii.eqb c "013") eqn:Hcr.
      * apply Ascii.eqb_eq in Hcr. subst c.
        destruct a as [|c' a''].
        { exists "", []. reflexivity. }
        destruct (Ascii.eqb c' "010") eqn:Hlf'.
        { apply Ascii.eqb_eq in Hlf'. subst c'.
          simpl in Ha'. assert (Ha'' : String.length a'' <= n) by lia.
          destruct (IH a'' Ha'') as [t' [init' Hcut']].
          exists "", (t' :: init'). intros b.
          cbn [String.append]. rewrite splitGo_step.
          change (Js.sepNewline (String "013" (String "010" (a'' +++ String "010" b))))
            with (Some 2).
          cbv iota. cbn [Js.splitGo]. now rewrite Hcut'. }
        exists (String "013" t), init. intros b.
        cbn [String.append]. rewrite splitGo_step.
        rewrite sepNewline_other by (auto; right; exact Hlf').
        change (String c' (a'' +++ String "010" b))
          with (String c' a'' +++ String "010" b).
        now rewrite Hcut.
      * exists (String c t), init. intros b.
        cbn [String.append]. rewrite splitGo_step.
        rewrite sepNewline_other by auto. now rewrite Hcut.
Qed.

Lemma splitLines_cut (a : string) :
  exists init,
    Js.splitLines (a +++ LF) = init ++ [""]
    /\ forall b, Js.splitLines (a +++ LF +++ b) = init ++ Js.splitLines b.
Proof.
  destruct (splitGo_cut (String.length a) a (le_n _)) as [t [init H]].
  exists (t :: init). split.
  - exact (H "").
  - intros b. exact (H b).
Qed.

Lemma linesOf_app (c1 c2 : list string) : linesOf (c1 ++ c2) = linesOf c1 ++ linesOf c2.
Proof. unfold linesOf. apply flat_map_app. Qed.

Lemma linesOf_cons (c : string) (cs : list string) :
  linesOf (c :: cs) = Js.splitLines c ++ linesOf cs.
Proof. reflexivity. Qed.

Lemma linesOf_cut (pre post : list string) (a b : string) :
  exists l1 l2,
    linesOf (pre ++ [a +++ LF +++ b] ++ post) = l1 ++ l2
    /\ linesOf (pre ++ [a +++ LF; b] ++ post) = l1 ++ "" :: l2.
Proof.
  destruct (splitLines_cut a) as [init [H1 H2]].
  exists (linesOf pre ++ init), (Js.splitLines b ++ linesOf post).
  rewrite !linesOf_app.
  change ([a +++ LF +++ b] ++ post) with ((a +++ LF +++ b) :: post).
  change ([a +++ LF; b] ++ post) with ((a +++ LF) :: b :: post).
  rewrite !linesOf_cons, H1, H2. rewrite <- !app_assoc. split; reflexivity.
Qed.

Lemma feed_empty_line (allCommits : bool) (untilVersion : option string)
    (st : Segmenter) (lines : list string) :
  feed allCommits untilVersion st ("" :: lines) = feed allCommits untilVersion st lines.
Proof.
  destruct (processKilled st) eqn:Hk.
  - now rewrite !feed_killed.
  - rewrite feed_cons by assumption.
    rewrite onLine_untagged by reflexivity. simpl fst.
    unfold retain. change (lineHashes "") with [""].
    unfold keepsCommit. reflexivity.
Qed.

(** X3: the Segmenter does not depend on where a chunk of the output of
    [git log] ends, as long as it ends just after a line feed: one chunk cut
    in two after a line feed gives the same result, buckets or error. *)
Theorem segmenter_chunk_cut_after_line
    (allCommits : bool) (startVersion untilVersion : option string)
    (pre post : list string) (a b : string) (code : option nat) :
  getVersionsWithCommits allCommits startVersion untilVersion
    (pre ++ [a +++ LF; b] ++ post, code)
  = getVersionsWithCommits allCommits startVersion untilVersion
      (pre ++ [a +++ LF +++ b] ++ post, code).
Proof.
  unfold getVersionsWithCommits. cbn [fst snd]. f_equal.
  rewrite !fold_onData.
  destruct (linesOf_cut pre post a b) as [l1 [l2 [H1 H2]]].
  rewrite H1, H2, !feed_app. now rewrite feed_empty_line.
Qed.

Lemma bodyLine_empty (st : Resolver) : bodyLine st "" = st.
Proof.
  destruct (foundConflict st) eqn:Hf.
  - rewrite bodyLine_conflict by now left.
    unfold conflictFound. destruct st. simpl in *. now subst.
  - now rewrite bodyLine_other by (assumption || reflexivity).
Qed.

(** X4: the Message Resolver does not depend on where a chunk of the output
    of [git show] ends, as long as it ends just after a line feed. *)
Theorem resolver_chunk_cut_after_line
    (short : bool) (pre post : list string) (a b : string) (code : option nat) :
  getMessageForCommit short (pre ++ [a +++ LF; b] ++ post, code)
  = getMessageForCommit short (pre ++ [a +++ LF +++ b] ++ post, code).
Proof.
  rewrite !getMessageForCommit_lines.
  destruct (linesOf_cut pre post a b) as [l1 [l2 [H1 H2]]].
  rewrite H1, H2, !fold_left_app. simpl fold_left. now rewrite bodyLine_empty.
Qed.

(** ** The resolved message in closed form *)

Lemma seeMergeRequestRe_not_merge (line : string) :
  mergeBranchRe line = true -> seeMergeRequestRe line = false.
Proof.
  intros Hm. destruct (seeMergeRequestRe line) eqn:Hs; [|reflexivity].
  destruct (seeMergeRequestRe_only _ Hs) as [_ H]. congruence.
Qed.

Lemma fold_bodyLine_closed (lines : list string) :
  forall st,
    foundConflict st = false ->
    message (fold_left bodyLine lines st)
    = message st ++ flat_map textOfLine (beforeConflict lines)
    /\ isMergeRequest (fold_left bodyLine lines st)
       = isMergeRequest st
         || existsb (fun l => seeMergeRequestRe (Js.trim l)) (beforeConflict lines).
Proof.
  induction lines as [|x lines IH]; intros st Hf.
  - simpl. now rewrite app_nil_r, orb_false_r.
  - simpl fold_left. simpl beforeConflict.
    destruct (conflictsRe (Js.trim x)) eqn:Hc.
    + rewrite bodyLine_conflict by now right.
      rewrite fold_after_conflict by reflexivity. simpl.
      now rewrite app_nil_r, orb_false_r.
    + rewrite (bodyLine_other st x Hf Hc). simpl flat_map. simpl existsb.
      unfold textOfLine at 1.
      destruct (mergeBranchRe (Js.trim x)) eqn:Hm.
      * rewrite (seeMergeRequestRe_not_merge _ Hm). now apply IH.
      * destruct (seeMergeRequestRe (Js.trim x)) eqn:Hs.
        -- destruct (IH (mergeRequestFound st) Hf) as [H1 H2].
           rewrite H1, H2. simpl. now rewrite orb_true_r.
        -- destruct (Nat.ltb 0 (String.length (Js.trim x))).
           ++ match goal with
              | |- context [fold_left bodyLine lines ?s] =>
                  destruct (IH s Hf) as [H1 H2]
              end.
              rewrite H1, H2. simpl. now rewrite <- app_assoc.
           ++ now apply IH.
Qed.

Lemma getMessageForCommit_closed (short : bool) (chunks : list string) (code : option nat) :
  Js.truthyCode code = false ->
  getMessageForCommit short (chunks, code)
  = Ok (if short
           && Nat.ltb 0 (List.length (flat_map textOfLine (beforeConflict (linesOf chunks))))
        then hd "" (flat_map textOfLine (beforeConflict (linesOf chunks)))
        else Js.join LF (flat_map textOfLine (beforeConflict (linesOf chunks))),
        existsb (fun l => seeMergeRequestRe (Js.trim l)) (beforeConflict (linesOf chunks))).
Proof.
  intros Hcode. rewrite getMessageForCommit_lines, Hcode. cbv zeta.
  destruct (fold_bodyLine_closed (linesOf chunks) startResolver eq_refl) as [H1 H2].
  rewrite H1, H2. reflexivity.
Qed.

(** X5: when [git show] closes with a falsy code, the text handed over is
    made of the trimmed lines of the body ahead of the first conflict line,
    without the empty ones, the merge-branch lines and the merge-request
    lines, in their order: the first of them in short mode, all of them
    joined by line feeds otherwise; and [isMergeRequest] tells whether one of
    the lines ahead of the first conflict line is a merge-request line. *)
Theorem resolved_message (short : bool) (chunks : list string) (code : option nat) :
  Js.truthyCode code = false ->
  let kept := flat_map textOfLine (beforeConflict (linesOf chunks)) in
  getMessageForCommit short (chunks, code)
  = Ok (if short && Nat.ltb 0 (List.length kept) then hd "" kept else Js.join LF kept,
        existsb (fun l => seeMergeRequestRe (Js.trim l)) (beforeConflict (linesOf chunks))).
Proof.
  intros Hcode kept. now apply getMessageForCommit_closed.
Qed.

Lemma resolved_message_witness :
  let chunks := ["Merge branch 'parser' into 'master'" +++ LF +++ LF
                 +++ "  Add parser  " +++ LF; "Fix lexer" +++ LF
                 +++ "See merge request !42" +++ LF +++ "# Conflicts:" +++ LF
                 +++ "lib/lexer.js" +++ LF] in
  flat_map textOfLine (beforeConflict (linesOf chunks)) = ["Add parser"; "Fix lexer"]
  /\ getMessageForCommit false (chunks, Some 0)
     = Ok ("Add parser" +++ LF +++ "Fix lexer", true).
Proof.
  intros chunks. split; [reflexivity|].
  exact (resolved_message false chunks (Some 0) eq_refl).
Defined.

Lemma splitGo_no_LF (s : string) :
  forall k l, In l (Js.splitGo Js.sepNewline s k) -> hasLF l = false.
Proof.
  induction s as [|c s IH]; intros k l.
  - simpl. intros [<-|[]]. reflexivity.
  - destruct k as [|k]; [|apply IH].
    rewrite splitGo_step.
    destruct (Ascii.eqb c "010") eqn:Hc.
    + apply Ascii.eqb_eq in Hc. subst c. rewrite sepNewline_LF.
      intros [<-|H]; [reflexivity | now apply IH in H].
    + assert (Hcons : In l (match Js.splitGo Js.sepNewline s 0 with
                            | t :: ts => String c t :: ts
                            | [] => [String c ""]
                            end) -> hasLF l = false).
      { destruct (Js.splitGo Js.sepNewline s 0) as [|t ts] eqn:Hs.
        - intros [<-|[]]. simpl. now rewrite Hc.
        - intros [<-|H].
          + simpl. rewrite Hc. apply (IH 0). rewrite Hs. now left.
          + apply (IH 0). rewrite Hs. now right. }
      destruct (Js.sepNewline (String c s)) as [[|n]|]; try assumption.
      intros [<-|H]; [reflexivity | now apply IH in H].
Qed.

Lemma hasLF_skipSpaces (s : string) : hasLF s = false -> hasLF (Js.skipSpaces s) = false.
Proof.
  induction s as [|c s IH]; simpl; [auto|].
  intros H. apply orb_false_elim in H as [H1 H2].
  destruct (Js.isSpace c); [auto|]. simpl. now rewrite H1, H2.
Qed.

Lemma hasLF_trimEnd (s : string) : hasLF s = false -> hasLF (Js.trimEnd s) = false.
Proof.
  induction s as [|c s IH]; simpl; [auto|].
  intros H. apply orb_false_elim in H as [H1 H2]. specialize (IH H2).
  destruct (Js.trimEnd s) as [|c' t].
  - destruct (Js.isSpace c); simpl; [reflexivity | now rewrite H1].
  - simpl in *. now rewrite H1, IH.
Qed.

Lemma linesOf_no_LF (chunks : list string) (l : string) :
  In l (linesOf chunks) -> hasLF (Js.trim l) = false.
Proof.
  unfold linesOf. rewrite in_flat_map. intros [d [_ Hl]].
  apply hasLF_trimEnd, hasLF_skipSpaces. now apply splitGo_no_LF in Hl.
Qed.

Lemma textOfLine_In (line t : string) : In t (textOfLine line) -> t = Js.trim line /\ t <> "".
Proof.
  unfold textOfLine.
  destruct (mergeBranchRe (Js.trim line)); [contradiction|].
  destruct (seeMergeRequestRe (Js.trim line)); [contradiction|].
  destruct (Js.trim line) as [|c s]; simpl; [contradiction|].
  intros [<-|[]]. split; [reflexivity | discriminate].
Qed.

Lemma beforeConflict_In (lines : list string) (l : string) :
  In l (beforeConflict lines) -> In l lines.
Proof.
  induction lines as [|x lines IH]; simpl; [auto|].
  destruct (conflictsRe (Js.trim x)); [contradiction|].
  intros [<-|H]; auto.
Qed.

(** X6: in short mode the text of a message is one line: it holds no line
    feed, and it is empty or the trimmed form of a line of the body. *)
Theorem short_message_one_line (chunks : list string) (code : option nat)
    (text : string) (mr : bool) :
  getMessageForCommit true (chunks, code) = Ok (text, mr) ->
  hasLF text = false
  /\ (text = "" \/ exists line, In line (linesOf chunks) /\ text = Js.trim line).
Proof.
  intros H.
  assert (Hcode : Js.truthyCode code = false).
  { unfold getMessageForCommit in H. simpl snd in H.
    destruct (Js.truthyCode code); [discriminate | reflexivity]. }
  rewrite (getMessageForCommit_closed true chunks code Hcode) in H.
  injection H as Ht _.
  destruct (flat_map textOfLine (beforeConflict (linesOf chunks))) as [|t ts] eqn:Hk.
  - simpl in Ht. subst text. split; [reflexivity | now left].
  - simpl in Ht. subst text.
    assert (Hin : In t (flat_map textOfLine (beforeConflict (linesOf chunks))))
      by (rewrite Hk; now left).
    apply in_flat_map in Hin as [line [Hl Hin]].
    apply textOfLine_In in Hin as [-> _]. apply beforeConflict_In in Hl.
    split; [now apply linesOf_no_LF with (chunks := chunks)|].
    right. now exists line.
Qed.

Lemma short_message_one_line_witness :
  let chunks := ["  Add parser  " +++ LF +++ "Fix lexer" +++ LF] in
  getMessageForCommit true (chunks, Some 0) = Ok ("Add parser", false)
  /\ hasLF "Add parser" = false.
Proof.
  intros chunks.
  assert (H : getMessageForCommit true (chunks, Some 0) = Ok ("Add parser", false))
    by reflexivity.
  split; [exact H|].
  exact (proj1 (short_message_one_line chunks (Some 0) "Add parser" false H)).
Defined.

(** ** Where a detected tag comes from *)

Lemma litCI_inv (p : string) :
  forall s r, Js.litCI p s = Some r -> exists t, s = t +++ r /\ Js.litCI p t = Some "".
Proof.
  induction p as [|a p IH]; intros s r; simpl.
  - intros [= ->]. now exists "".
  - destruct s as [|c s]; [discriminate|].
    destruct (Ascii.eqb (Js.canon a) (Js.canon c)) eqn:E; [|discriminate].
    intros H. destruct (IH _ _ H) as [t [-> Ht]].
    exists (String c t). simpl. now rewrite E.
Qed.

Lemma skipSpaces_inv (s : string) :
  exists ws, s = ws +++ Js.skipSpaces s /\ Js.skipSpaces ws = "".
Proof.
  induction s as [|c s [ws [H1 H2]]]; [now exists ""|]. simpl.
  destruct (Js.isSpace c) eqn:Hc; [|now exists ""].
  exists (String c ws). simpl. rewrite Hc. split; [now rewrite <- H1 | assumption].
Qed.

Lemma dotStar_inv (s : string) :
  exists rest,
    s = Js.dotStar s +++ rest
    /\ (rest = "" \/ exists c r, rest = String c r /\ Js.isLineTerminator c = true).
Proof.
  induction s as [|c s [rest [H1 H2]]]; [exists ""; auto|]. simpl.
  destruct (Js.isLineTerminator c) eqn:Hc.
  - exists (String c s). split; [reflexivity|]. right. now exists c, s.
  - exists rest. simpl. split; [now rewrite <- H1 | assumption].
Qed.

Lemma tagMatch_inv (d m : string) :
  tagMatch d = Some m -> exists before s, d = before +++ s /\ tagAt s = Some m.
Proof.
  induction d as [|c d IH]; [discriminate|]. cbn [tagMatch].
  destruct (tagAt (String c d)) as [m'|] eqn:E.
  - intros [= <-]. now exists "", (String c d).
  - intros H. destruct (IH H) as [before [s [-> Hs]]]. now exists (String c before), s.
Qed.

Lemma tagAt_inv (s m : string) :
  tagAt s = Some m ->
  exists t ws v rest,
    s = t +++ ws +++ v +++ m +++ rest
    /\ Js.litCI "tag:" t = Some ""
    /\ ws <> "" /\ Js.skipSpaces ws = ""
    /\ (v = "" \/ Js.litCI "v" v = Some "")
    /\ (rest = "" \/ exists c r, rest = String c r /\ Js.isLineTerminator c = true).
Proof.
  unfold tagAt.
  destruct (Js.litCI "tag:" s) as [[|c r]|] eqn:Hl; try discriminate.
  destruct (Js.isSpace c) eqn:Hc; [|discriminate].
  destruct (litCI_inv _ _ _ Hl) as [t [-> Ht]].
  destruct (skipSpaces_inv r) as [ws [Hr Hws]].
  set (r1 := Js.skipSpaces r) in *.
  assert (Hshape : forall v r2,
             r1 = v +++ r2 -> (v = "" \/ Js.litCI "v" v = Some "") ->
             Some (Js.dotStar r2) = Some m ->
             exists t0 ws0 v0 rest,
               t +++ String c r = t0 +++ ws0 +++ v0 +++ m +++ rest
               /\ Js.litCI "tag:" t0 = Some ""
               /\ ws0 <> "" /\ Js.skipSpaces ws0 = ""
               /\ (v0 = "" \/ Js.litCI "v" v0 = Some "")
               /\ (rest = "" \/ exists c0 r0,
                                  rest = String c0 r0
                                  /\ Js.isLineTerminator c0 = true)).
  { intros v r2 H1 Hv [= <-].
    destruct (dotStar_inv r2) as [rest [H2 H3]].
    exists t, (String c ws), v, rest.
    split; [|split; [assumption|split; [discriminate|split; [|auto]]]].
    - cbn [String.append]. rewrite <- H2, <- H1, <- Hr. reflexivity.
    - simpl. now rewrite Hc. }
  destruct r1 as [|x r'] eqn:E.
  - apply (Hshape "" ""); auto.
  - destruct (Ascii.eqb (Js.canon x) "V") eqn:Hx.
    + apply (Hshape (String x "") r'); [reflexivity|].
      right. cbn [Js.litCI]. apply Ascii.eqb_eq in Hx.
      change (Js.canon "v") with "V"%char. rewrite Hx, Ascii.eqb_refl. reflexivity.
    + apply (Hshape "" (String x r')); auto.
Qed.

Lemma fold_tagStep_from (ds : list string) (v : string) :
  fold_left tagStep ds None = Some v -> exists d, In d ds /\ decorationTag d = Some v.
Proof.
  induction ds as [|d ds IH]; simpl; [discriminate|].
  rewrite tagStep_none. destruct (decorationTag d) as [v'|] eqn:Hd.
  - rewrite fold_tagStep_some by (now apply decorationTag_version with (d := d)).
    intros [= <-]. exists d. auto.
  - intros H. destruct (IH H) as [d' [H1 H2]]. exists d'. auto.
Qed.

(** X7: a version that [getTagVersion] detects is read off one of the
    decorations: that decoration holds [tag:], in any case of letters, then
    at least one white-space character, then an optional [v], then the
    version, which runs to the end of the decoration or to a line
    terminator. *)
Theorem detected_tag_origin (refNames : option string) (version : string) :
  getTagVersion refNames = Some version ->
  exists d before t ws v rest,
    In d (decorations refNames)
    /\ d = before +++ t +++ ws +++ v +++ version +++ rest
    /\ Js.litCI "tag:" t = Some ""
    /\ ws <> "" /\ Js.skipSpaces ws = ""
    /\ (v = "" \/ Js.litCI "v" v = Some "")
    /\ versionRegExp version = true
    /\ (rest = "" \/ exists c r, rest = String c r /\ Js.isLineTerminator c = true).
Proof.
  intros H. pose proof (getTagVersion_version _ _ H) as Hver.
  apply fold_tagStep_from in H as [d [Hin Hd]].
  unfold decorationTag in Hd.
  destruct (tagMatch d) as [m|] eqn:Hm; [|discriminate].
  destruct (versionRegExp m); [|discriminate]. injection Hd as ->.
  destruct (tagMatch_inv _ _ Hm) as [before [s [-> Hs]]].
  destruct (tagAt_inv _ _ Hs) as [t [ws [v [rest [-> [H1 [H2 [H3 [H4 H5]]]]]]]]].
  exists (before +++ t +++ ws +++ v +++ version +++ rest), before, t, ws, v, rest.
  repeat (split; [assumption || reflexivity|]). assumption.
Qed.

Lemma detected_tag_origin_witness :
  getTagVersion (Some "HEAD -> master, TAG:  V2.10") = Some "2.10"
  /\ exists d, In d (decorations (Some "HEAD -> master, TAG:  V2.10"))
               /\ exists before t ws v rest,
                    d = before +++ t +++ ws +++ v +++ "2.10" +++ rest
                    /\ Js.litCI "tag:" t = Some "" /\ ws <> "".
Proof.
  assert (H : getTagVersion (Some "HEAD -> master, TAG:  V2.10") = Some "2.10")
    by reflexivity.
  split; [exact H|].
  destruct (detected_tag_origin _ _ H)
    as [d [before [t [ws [v [rest [H1 [H2 [H3 [H4 _]]]]]]]]]].
  exists d. split; [assumption|]. exists before, t, ws, v, rest. auto.
Defined.

(** ** The rendered blocks *)

Lemma underline_join (n : nat) : Js.join "=" (repeat "" (n + 1)) = underline n.
Proof.
  induction n as [|n IH]; [reflexivity|].
  change (repeat "" (S n + 1)) with ("" :: repeat "" (n + 1)).
  destruct (repeat "" (n + 1)) as [|x l] eqn:E.
  - rewrite Nat.add_1_r in E. discriminate.
  - rewrite join_cons, IH. reflexivity.
Qed.

Lemma underline_length (n : nat) : String.length (underline n) = n.
Proof. induction n as [|n IH]; simpl; [reflexivity | now rewrite IH]. Qed.

Lemma concat_empty_cons (x : string) (l : list string) :
  String.concat "" (x :: l) = x +++ String.concat "" l.
Proof. destruct l; simpl; [now rewrite append_empty_r | reflexivity]. Qed.

Lemma fold_bullets (messages : list string) :
  forall acc,
    fold_left (fun result message => result +++ " * " +++ message +++ LF) messages acc
    = acc +++ String.concat "" (map bullet messages).
Proof.
  induction messages as [|m ms IH]; intros acc.
  - simpl. now rewrite append_empty_r.
  - cbn [fold_left map]. rewrite IH, concat_empty_cons. unfold bullet at 2.
    now rewrite !append_assoc.
Qed.

(** X8: the block of a version is its title line, a line of as many [=] as
    the version has characters, and one line [ * message] for each message,
    in their order, each ended by a line feed. *)
Theorem version_block (version : string) (messages : list string) :
  generateVersionChangelog version messages
  = version +++ LF +++ underline (String.length version) +++ LF
    +++ String.concat "" (map bullet messages)
  /\ String.length (underline (String.length version)) = String.length version.
Proof.
  split; [|apply underline_length].
  unfold generateVersionChangelog. rewrite fold_bullets, underline_join.
  now rewrite !append_assoc.
Qed.

Lemma renderedBlocks_stop (u : string) (vs1 vs2 : list VM.t) (v : VM.t) :
  VM.version v = u ->
  renderedBlocks (Some u) (vs1 ++ v :: vs2) = renderedBlocks (Some u) vs1.
Proof.
  intros Hv. induction vs1 as [|x vs1 IH]; simpl.
  - now rewrite Hv, String.eqb_refl.
  - destruct (String.eqb (VM.version x) u); [reflexivity | now rewrite IH].
Qed.

Lemma renderedBlocks_all (untilVersion : option string) (vs : list VM.t) :
  (forall v, In v vs -> untilVersion <> Some (VM.version v)) ->
  renderedBlocks untilVersion vs = map block vs.
Proof.
  induction vs as [|x vs IH]; intros H; [reflexivity|]. cbn [renderedBlocks map].
  assert (Hx : Js.strictEq (Some (VM.version x)) untilVersion = false).
  { destruct untilVersion as [u|]; [|reflexivity]. simpl.
    apply String.eqb_neq. intros E. apply (H x); [now left | now rewrite E]. }
  rewrite Hx, IH; [reflexivity|]. intros v Hv. apply H. now right.
Qed.

(** X9: the rendering stops at the first bucket whose version is the resume
    version: that bucket and all that follow it add nothing to the changelog.
    When no bucket has the resume version, and so when there is none, the
    changelog is made of the blocks of all the buckets in their order. *)
Theorem rendering_stops_at_resume (untilVersion : option string) :
  (forall u vs1 v vs2,
      untilVersion = Some u -> VM.version v = u ->
      generateChangelog untilVersion (vs1 ++ v :: vs2) = generateChangelog untilVersion vs1)
  /\ (forall vs,
        (forall v, In v vs -> untilVersion <> Some (VM.version v)) ->
        generateChangelog untilVersion vs = String.concat "" (map block vs)).
Proof.
  split.
  - intros u vs1 v vs2 -> Hv. rewrite !generateChangelog_blocks.
    now rewrite renderedBlocks_stop.
  - intros vs H. now rewrite generateChangelog_blocks, renderedBlocks_all.
Qed.

Lemma rendering_stops_at_resume_witness :
  let v1 := {| VM.version := "1.1.0"; VM.messages := ["Add parser"] |} in
  let v0 := {| VM.version := "1.0.0"; VM.messages := ["First"] |} in
  generateChangelog (Some "1.0.0") ([v1] ++ v0 :: [v1])
  = generateChangelog (Some "1.0.0") [v1].
Proof.
  intros v1 v0.
  exact (proj1 (rendering_stops_at_resume (Some "1.0.0")) "1.0.0" [v1] v0 [v1]
           eq_refl eq_refl).
Defined.

(** ** Messages of the versions *)

Lemma parallelLimit_ok_inv {A B : Type} (time : A -> nat) (f : A -> Result B) (l : list A) :
  forall r,
    parallelLimit (map (fun x => (time x, f x)) l) = Ok r ->
    Forall2 (fun x y => f x = Ok y) l r.
Proof.
  intros r H. apply parallelLimit_ok_iff in H. rewrite map_snd_tasks in H.
  revert r H. induction l as [|x l IH]; intros [|y r]; simpl; try discriminate.
  - constructor.
  - intros [= Hx H]. constructor; [assumption | now apply IH].
Qed.

Lemma parallelLimit_ok {A B : Type} (time : A -> nat) (f : A -> Result B) (l : list A) :
  (forall x, In x l -> exists y, f x = Ok y) ->
  exists r, parallelLimit (map (fun x => (time x, f x)) l) = Ok r.
Proof.
  induction l as [|x l IH]; intros H; [now exists []|].
  destruct (H x (or_introl eq_refl)) as [y Hy].
  destruct IH as [r Hr]; [intros z Hz; apply H; now right|].
  exists (y :: r). apply parallelLimit_ok_iff. apply parallelLimit_ok_iff in Hr.
  simpl. now rewrite Hy, Hr.
Qed.

Section MessagesOfVersions.

Variable removeMd : string -> string.
Variable opts : Options.
Variable w : World.

(** X10: the versions with messages come out one for each bucket, in the
    order of the buckets and under their versions; the messages of a version
    are the non-empty ones among the messages resolved for its commits, one
    for each commit, in the order of the commits. *)
Theorem messages_keep_order (versions : list VC.t) (ms : list VM.t) :
  getMessagesForVersions removeMd opts w versions = Ok ms ->
  map VM.version ms = map VC.version versions
  /\ Forall2
       (fun v m =>
          exists resolved,
            Forall2 (fun hash text => messageTask removeMd opts w hash = Ok text)
              (VC.commits v) resolved
            /\ VM.messages m = filterEmptyMessages resolved)
       versions ms.
Proof.
  unfold getMessagesForVersions, versionTasks. intros H.
  apply parallelLimit_ok_inv in H.
  induction H as [|v m vs ms' Hv _ IH].
  - split; constructor.
  - destruct IH as [IH1 IH2]. unfold versionTask in Hv.
    destruct (getMessagesForListOfCommits removeMd opts w (VC.commits v))
      as [resolved|e] eqn:Hr; simpl in Hv; [|discriminate].
    injection Hv as <-. simpl. split; [now rewrite IH1|].
    constructor; [|assumption]. exists resolved. split; [|reflexivity].
    unfold getMessagesForListOfCommits, messageTasks in Hr.
    now apply parallelLimit_ok_inv in Hr.
Qed.

(** X11: the messages of the versions are obtained exactly when [git show]
    closes with a falsy code for every commit of every bucket; fetches of
    other commits play no part. *)
Theorem messages_need_every_fetch (versions : list VC.t) :
  (exists ms, getMessagesForVersions removeMd opts w versions = Ok ms)
  <-> (forall v hash,
         In v versions -> In hash (VC.commits v) ->
         Js.truthyCode (snd (gitShow w hash)) = false).
Proof.
  split.
  - intros [ms H] v hash Hv Hh.
    destruct (Js.truthyCode (snd (gitShow w hash))) eqn:Hc; [|reflexivity].
    destruct (getMessagesForVersions_err removeMd opts w versions v hash Hv Hh Hc)
      as [v' [hash' [_ [_ [_ [_ He]]]]]].
    congruence.
  - intros H. unfold getMessagesForVersions, versionTasks. apply parallelLimit_ok.
    intros v Hv. unfold versionTask, getMessagesForListOfCommits, messageTasks.
    destruct (parallelLimit_ok (closeTime w) (messageTask removeMd opts w) (VC.commits v))
      as [r ->].
    + intros hash Hh. unfold messageTask, getMessageForCommit.
      rewrite (H v hash Hv Hh). simpl. eexists. reflexivity.
    + simpl. eexists. reflexivity.
Qed.

End MessagesOfVersions.

Lemma messages_keep_order_witness :
  let opts := {| allCommits := false; overwriteChangelog := false;
                 startVersion := None; shortCommitMessage := true |} in
  let w := {| changelogStore := Absent;
              gitLog := ([], None);
              gitShow := fun hash =>
                ([hash +++ " merged" +++ LF +++ "See merge request !1"], Some 0);
              writeFailure := None;
              closeTime := fun _ => 0;
              removeMdUndefined := [] |} in
  let versions := [{| VC.version := "1.1.0"; VC.commits := ["a1"; "b2"] |};
                   {| VC.version := "1.0.0"; VC.commits := ["c3"] |}] in
  let ms := [{| VM.version := "1.1.0"; VM.messages := ["a1 merged"; "b2 merged"] |};
             {| VM.version := "1.0.0"; VM.messages := ["c3 merged"] |}] in
  getMessagesForVersions (fun s => s) opts w versions = Ok ms
  /\ map VM.version ms = map VC.version versions.
Proof.
  intros opts w versions ms.
  assert (H : getMessagesForVersions (fun s => s) opts w versions = Ok ms) by reflexivity.
  split; [exact H|].
  exact (proj1 (messages_keep_order (fun s => s) opts w versions ms H)).
Defined.

(** ** How a run ends *)

Section Runs.

Variable removeMd : string -> string.
Variable opts : Options.

(** X13: when the write of a changelog that is not empty fails, the run has
    asked for the write of the old header, the new blocks and the old body,
    prints the error of the write and ends with status 1. *)
Theorem write_failure (w : World) (g : Resume) (changelog error : string) :
  rendering removeMd opts w = Ok (g, changelog) ->
  changelog <> "" ->
  writeFailure w = Some error ->
  mergelogga removeMd opts w
  = {| written := Some (oldChangelogHeader g +++ changelog +++ oldChangelog g);
       errorStream := ["ERROR: " +++ error];
       exitStatus := 1 |}.
Proof.
  intros Hr Hne Hw. unfold mergelogga. rewrite Hr. unfold writeChangelogFile.
  destruct changelog; [congruence|]. simpl. now rewrite Hw.
Qed.

(** X14: a changelog file that is absent is read as an empty one, and the
    run is the one for an empty file; a file that cannot be read ends the
    run with its error and status 1, whatever git would answer. *)
Theorem changelog_absent_or_unreadable (w : World) :
  (changelogStore w = Absent ->
   mergelogga removeMd opts w = mergelogga removeMd opts (withStore w (Content "")))
  /\ (forall error log show,
        changelogStore w = Unreadable error ->
        mergelogga removeMd opts (withGit w log show)
        = {| written := None; errorStream := ["ERROR: " +++ error]; exitStatus := 1 |}).
Proof.
  split.
  - intros H. unfold mergelogga, undefinedMessage, segmenting, rendering, readChangelogFile.
    now rewrite H.
  - intros error log show H.
    unfold mergelogga, undefinedMessage, segmenting, rendering, readChangelogFile.
    simpl. now rewrite H.
Qed.

(** X15: in overwrite mode the old changelog plays no part: there is no
    resume version, a run writes the rendered changelog alone, if it is not
    empty, and the run is the same for any old content that can be read. *)
Theorem overwrite_ignores_old_changelog (w : World) :
  overwriteChangelog opts = true ->
  (forall g changelog,
      rendering removeMd opts w = Ok (g, changelog) ->
      g = noResume
      /\ written (mergelogga removeMd opts w)
         = if Js.truthy (Some changelog) then Some changelog else None)
  /\ (forall a b,
        mergelogga removeMd opts (withStore w (Content a))
        = mergelogga removeMd opts (withStore w (Content b))).
Proof.
  intros Ho. split.
  - intros g changelog Hr.
    destruct (rendering_inv _ _ _ _ _ Hr) as [data [versions [_ [Hg _]]]].
    unfold getLastVersionFromChangelog in Hg. rewrite Ho in Hg. simpl in Hg. subst g.
    split; [reflexivity|]. unfold mergelogga. rewrite Hr. unfold writeChangelogFile.
    destruct (Js.truthy (Some changelog)); simpl; [|reflexivity].
    now rewrite append_empty_r.
  - intros a b. unfold mergelogga, undefinedMessage, segmenting, rendering, readChangelogFile.
    simpl. unfold getLastVersionFromChangelog. now rewrite Ho.
Qed.

End Runs.

Lemma write_failure_witness :
  let opts := {| allCommits := true; overwriteChangelog := true;
                 startVersion := None; shortCommitMessage := true |} in
  let w := {| changelogStore := Absent;
              gitLog := (["a1 p1#tag: v1.0.0" +++ LF], Some 0);
              gitShow := fun _ => (["First" +++ LF], Some 0);
              writeFailure := Some "Error: EACCES";
              closeTime := fun _ => 0;
              removeMdUndefined := [] |} in
  let changelog := "1.0.0" +++ LF +++ "=====" +++ LF +++ " * First" +++ LF +++ LF in
  rendering (fun s => s) opts w = Ok (noResume, changelog)
  /\ mergelogga (fun s => s) opts w
     = {| written := Some ("" +++ changelog +++ "");
          errorStream := ["ERROR: Error: EACCES"];
          exitStatus := 1 |}.
Proof.
  intros opts w changelog.
  assert (H : rendering (fun s => s) opts w = Ok (noResume, changelog)) by reflexivity.
  split; [exact H|].
  refine (write_failure (fun s => s) opts w noResume changelog "Error: EACCES" H _ eq_refl).
  discriminate.
Defined.

Lemma overwrite_ignores_old_changelog_witness :
  let opts := {| allCommits := true; overwriteChangelog := true;
                 startVersion := None; shortCommitMessage := true |} in
  let w := {| changelogStore := Content ("0.9.0" +++ LF +++ " * old");
              gitLog := (["a1 p1#tag: v1.0.0" +++ LF], Some 0);
              gitShow := fun _ => (["First" +++ LF], Some 0);
              writeFailure := None;
              closeTime := fun _ => 0;
              removeMdUndefined := [] |} in
  mergelogga (fun s => s) opts (withStore w (Content ("0.9.0" +++ LF +++ " * old")))
  = mergelogga (fun s => s) opts (withStore w (Content "")).
Proof.
  intros opts w.
  exact (proj2 (overwrite_ignores_old_changelog (fun s => s) opts w eq_refl)
           ("0.9.0" +++ LF +++ " * old") "").
Defined.

(** ** An old changelog without a version line *)

Lemma fold_lastVersionStep_none (lines : list string) :
  forall g,
    untilVersion g = None ->
    (forall l, In l lines -> versionRegExp l = false) ->
    fold_left lastVersionStep lines g
    = {| oldChangelogHeader := oldChangelogHeader g +++ unlines lines;
         oldChangelog := oldChangelog g;
         untilVersion := None |}.
Proof.
  induction lines as [|x lines IH]; intros g Hg H; simpl.
  - rewrite append_empty_r. destruct g. simpl in *. now subst.
  - rewrite (lastVersionStep_other g x Hg) by (apply H; now left).
    rewrite IH; [|reflexivity|intros l Hl; apply H; now right]. simpl.
    now rewrite unlines_cons, !append_assoc.
Qed.

(** X16: when the old changelog, read in prepend mode, is not empty and has
    no version line, there is no resume version and no old body: the old
    header is made of all its lines, each followed by a line feed, which for
    a content free of carriage return and line feed pairs is the content and
    one more line feed; a run then writes the new blocks after it. *)
Theorem changelog_without_version (old : string) :
  old <> "" ->
  (forall l, In l (Js.splitLines old) -> versionRegExp l = false) ->
  getLastVersionFromChangelog false old
  = {| oldChangelogHeader := Js.join LF (Js.splitLines old) +++ LF;
       oldChangelog := "";
       untilVersion := None |}
  /\ (noCRLF old = true ->
      forall removeMd opts w g changelog,
        changelogStore w = Content old ->
        overwriteChangelog opts = false ->
        rendering removeMd opts w = Ok (g, changelog) ->
        changelog <> "" ->
        written (mergelogga removeMd opts w) = Some (old +++ LF +++ changelog)).
Proof.
  intros Hne Hlines.
  assert (Hg : getLastVersionFromChangelog false old
               = {| oldChangelogHeader := Js.join LF (Js.splitLines old) +++ LF;
                    oldChangelog := "";
                    untilVersion := None |}).
  { unfold getLastVersionFromChangelog. destruct old as [|c old']; [congruence|].
    cbn [orb negb Js.truthy].
    rewrite fold_lastVersionStep_none by (reflexivity || assumption). simpl.
    destruct (splitGo_cons Js.sepNewline (String c old') 0) as [t [ts Ht]].
    unfold Js.splitLines, Js.split. rewrite Ht. now rewrite unlines_join. }
  split; [assumption|].
  intros Hlf removeMd opts w g changelog Hstore Hover Hr Hc.
  destruct (rendering_inv _ _ _ _ _ Hr) as [data [versions [Hread [Hg' _]]]].
  unfold readChangelogFile in Hread. rewrite Hstore in Hread. injection Hread as <-.
  rewrite Hover, Hg in Hg'. subst g.
  unfold mergelogga. rewrite Hr. unfold writeChangelogFile.
  destruct changelog; [congruence|]. simpl written.
  cbn [oldChangelogHeader oldChangelog].
  rewrite (join_splitLines old Hlf). now rewrite append_empty_r, !append_assoc.
Qed.

Lemma changelog_without_version_witness :
  let old := "Changes of the parser" +++ LF in
  old <> ""
  /\ getLastVersionFromChangelog false old
     = {| oldChangelogHeader := Js.join LF (Js.splitLines old) +++ LF;
          oldChangelog := "";
          untilVersion := None |}
  /\ oldChangelogHeader (getLastVersionFromChangelog false old) = old +++ LF.
Proof.
  intros old. split; [discriminate|].
  assert (Hl : forall l, In l (Js.splitLines old) -> versionRegExp l = false).
  { intros l [<-|[<-|[]]]; reflexivity. }
  pose proof (proj1 (changelog_without_version old ltac:(discriminate) Hl)) as H.
  split; [exact H|]. rewrite H. reflexivity.
Defined.

(** ** A run that finds nothing new *)

Lemma segment_no_tag (allCommits : bool) (startVersion untilVersion : option string)
    (chunks : list string) :
  Js.truthy startVersion = false ->
  tagsOf (beforeResume untilVersion (linesOf chunks)) = [] ->
  segment allCommits startVersion untilVersion chunks = [].
Proof.
  intros Hs Ht. apply (map_eq_nil VC.version).
  rewrite segment_feed, versions_feed, versions_start, Ht by reflexivity.
  unfold startBucket. rewrite Hs. now destruct startVersion.
Qed.

Lemma tagsOf_untagged (lines : list string) :
  (forall l, In l lines -> lineVersion l = None) -> tagsOf lines = [].
Proof.
  induction lines as [|x lines IH]; intros H; [reflexivity|].
  unfold tagsOf in *. simpl. rewrite (H x) by now left. simpl.
  apply IH. intros l Hl. apply H. now right.
Qed.

Lemma beforeResume_at (u : string) (pre post : list string) (ln : string) :
  (forall l, In l pre -> lineVersion l = None) ->
  lineVersion ln = Some u ->
  beforeResume (Some u) (pre ++ ln :: post) = pre.
Proof.
  intros Hpre Hln. induction pre as [|x pre IH]; simpl.
  - now rewrite resumeLine_same.
  - unfold resumeLine at 1. rewrite (Hpre x) by now left. simpl.
    rewrite IH; [reflexivity|]. intros l Hl. apply Hpre. now right.
Qed.

Lemma beforeResume_untagged (untilVersion : option string) (lines : list string) :
  (forall l, In l lines -> lineVersion l = None) ->
  beforeResume untilVersion lines = lines.
Proof.
  induction lines as [|x lines IH]; intros H; [reflexivity|]. simpl.
  unfold resumeLine at 1. rewrite (H x) by now left. simpl.
  rewrite IH; [reflexivity|]. intros l Hl. apply H. now right.
Qed.

(** X17: without a start version, a run writes nothing and ends with status
    0 and an empty error stream when [git log] closes with a falsy code and
    no new tag shows in the history: either no line carries a tag, or the
    first line that carries one carries the resume version, as in a second
    run after no new commit was tagged. *)
Theorem nothing_new_nothing_written
    (removeMd : string -> string) (opts : Options) (w : World) (data : string) :
  readChangelogFile w = Ok data ->
  Js.truthy (startVersion opts) = false ->
  Js.truthyCode (snd (gitLog w)) = false ->
  let resume := untilVersion (getLastVersionFromChangelog (overwriteChangelog opts) data) in
  ((forall l, In l (linesOf (fst (gitLog w))) -> lineVersion l = None)
   \/ exists pre ln post u,
        linesOf (fst (gitLog w)) = pre ++ ln :: post
        /\ (forall l, In l pre -> lineVersion l = None)
        /\ lineVersion ln = Some u
        /\ resume = Some u) ->
  mergelogga removeMd opts w = {| written := None; errorStream := []; exitStatus := 0 |}.
Proof.
  intros Hread Hsv Hcode resume H.
  assert (Hseg : getVersionsWithCommits (allCommits opts) (startVersion opts) resume (gitLog w)
                 = Ok []).
  { destruct (gitLog w) as [chunks code]. simpl in *.
    rewrite getVersionsWithCommits_segment by assumption. f_equal.
    apply segment_no_tag; [assumption|].
    destruct H as [H|[pre [ln [post [u [H1 [H2 [H3 H4]]]]]]]].
    - rewrite beforeResume_untagged by assumption. now apply tagsOf_untagged.
    - rewrite H1, H4, beforeResume_at by assumption. now apply tagsOf_untagged. }
  unfold mergelogga, rendering. rewrite Hread. cbn [bind]. fold resume.
  rewrite Hseg. reflexivity.
Qed.

Lemma nothing_new_nothing_written_witness :
  let opts := {| allCommits := false; overwriteChangelog := false;
                 startVersion := None; shortCommitMessage := true |} in
  let w := {| changelogStore := Content ("1.1.0" +++ LF +++ "=====" +++ LF
                                         +++ " * Add parser" +++ LF);
              gitLog := (["f9 p1 p2#HEAD -> master" +++ LF +++ "a1 p1 p2#tag: v1.1.0"
                          +++ LF +++ "b2 p3 p4#" +++ LF], None);
              gitShow := fun _ => ([], Some 1);
              writeFailure := None;
              closeTime := fun _ => 0;
              removeMdUndefined := [] |} in
  linesOf (fst (gitLog w))
  = ["f9 p1 p2#HEAD -> master"] ++ "a1 p1 p2#tag: v1.1.0" :: ["b2 p3 p4#"; ""]
  /\ mergelogga (fun s => s) opts w
     = {| written := None; errorStream := []; exitStatus := 0 |}.
Proof.
  intros opts w. split; [reflexivity|].
  refine (nothing_new_nothing_written (fun s => s) opts w _ eq_refl eq_refl eq_refl _).
  right. exists ["f9 p1 p2#HEAD -> master"], "a1 p1 p2#tag: v1.1.0", ["b2 p3 p4#"; ""], "1.1.0".
  split; [reflexivity|]. split; [|split; reflexivity].
  intros l [<-|[]]. reflexivity.
Defined.

(** ** The bucket of the start version *)

(** X18: with a start version, the retained commits of the lines ahead of
    the first tagged line make the first bucket of the output, under the
    start version; the buckets of the tagged lines follow as they are
    without a start version. *)
Theorem start_version_bucket
    (allCommits : bool) (start : string) (untilVersion : option string)
    (chunks rest : list string) (code : option nat) (pre : list string) :
  start <> "" ->
  Js.truthyCode code = false ->
  linesOf chunks = pre ++ linesOf rest ->
  (forall l, In l pre -> lineVersion l = None) ->
  match linesOf rest with [] => True | l :: _ => lineVersion l <> None end ->
  getVersionsWithCommits allCommits (Some start) untilVersion (chunks, code)
  = Ok ({| VC.version := start; VC.commits := keptOf allCommits pre |}
        :: segment allCommits None untilVersion rest).
Proof.
  intros Hs Hcode Hlines Hpre Hrest.
  rewrite getVersionsWithCommits_segment by assumption. f_equal.
  rewrite !segment_feed, Hlines, feed_app.
  rewrite (feed_untagged allCommits untilVersion pre) by (assumption || reflexivity).
  rewrite pushCurrent_feed_fresh by (assumption || reflexivity).
  unfold pushCurrent at 1. simpl. destruct start; [congruence|]. reflexivity.
Qed.

Lemma start_version_bucket_witness :
  let rest := ["a1 p1 p2#tag: v1.1.0" +++ LF +++ "b2 p3 p4#"] in
  let chunks := ["f9 p1 p2#HEAD -> master" +++ LF +++ "g8 p3#"] ++ rest in
  getVersionsWithCommits false (Some "1.2.0") None (chunks, None)
  = Ok ({| VC.version := "1.2.0";
           VC.commits := keptOf false ["f9 p1 p2#HEAD -> master"; "g8 p3#"] |}
        :: segment false None None rest).
Proof.
  intros rest chunks.
  refine (start_version_bucket false "1.2.0" None chunks rest None
            ["f9 p1 p2#HEAD -> master"; "g8 p3#"] _ eq_refl eq_refl _ _).
  - discriminate.
  - intros l [<-|[<-|[]]]; reflexivity.
  - vm_compute. discriminate.
Defined.
